(** * scikit-chem: string case converters and the Point3D formatter

    A shallow embedding of [skchem/utils/string.py] and
    [skchem/core/point3D.py], with the Python 3 built-ins they call
    ([str.lower], [str.strip], [str.replace], [re.sub], [round],
    [format], [hex]) written out as functions.

    Text is a [string] whose characters are read as the code points
    0..255 of a Python 3 [str]; a coordinate is an IEEE-754 double,
    kept as the [spec_float] of the Standard Library (sign, integer
    mantissa, binary exponent), so that rounding and formatting are
    exact computations on integers. *)

From Stdlib Require Import ZArith QArith Qabs Qpower Lia Lqa Bool List.
From Stdlib Require Import Strings.Ascii Strings.String.
From Stdlib Require Import Floats.SpecFloat.
From Stdlib Require Import Numbers.DecimalString Numbers.HexadecimalString.
From Stdlib Require Import Numbers.DecimalPos Numbers.HexadecimalPos.
From Stdlib Require Import Numbers.DecimalN Numbers.HexadecimalN.
From Stdlib Require Import Numbers.DecimalFacts Numbers.HexadecimalFacts.
From stdpp Require Import base gmap strings.

Import ListNotations.
Local Open Scope string_scope.

(** ** Python 3 [str] built-ins *)

Module Py.

Definition ord (c : ascii) : nat := nat_of_ascii c.

Definition between (lo hi n : nat) : bool :=
  Nat.leb lo n && Nat.leb n hi.

(** [c.isspace()]: the white space of Unicode below code point 256,
    which is what [str.strip()] without argument removes. *)
Definition isspace (c : ascii) : bool :=
  let n := ord c in
  between 9 13 n || between 28 32 n || Nat.eqb n 133 || Nat.eqb n 160.

(** [c.lower()] for one character: the capitals A-Z and the Latin-1
    capitals (all of 192..222 but the multiplication sign 215) move
    up by 32.  This is [str.lower] on the code points below 256; above
    them [str.lower] may give two characters for one and lowers a
    capital sigma by what stands around it, which is why the
    statements on the converters speak of [lower] of a whole text and
    of what it leaves alone, not of lengths or of places in the
    lowered text. *)
Definition lower_char (c : ascii) : ascii :=
  let n := ord c in
  if between 65 90 n || (between 192 222 n && negb (Nat.eqb n 215))
  then ascii_of_nat (n + 32)
  else c.

(** [s.lower()] *)
Fixpoint lower (s : string) : string :=
  match s with
  | EmptyString => EmptyString
  | String c s' => String (lower_char c) (lower s')
  end.

(** [s.lstrip()]: the index runs right while it sees white space. *)
Fixpoint lstrip (s : string) : string :=
  match s with
  | EmptyString => EmptyString
  | String c s' => if isspace c then lstrip s' else s
  end.

(** [s.rstrip()]: the index runs left from the end while it sees
    white space; what is cut is the longest white suffix. *)
Fixpoint rstrip (s : string) : string :=
  match s with
  | EmptyString => EmptyString
  | String c s' =>
      match rstrip s' with
      | EmptyString => if isspace c then EmptyString else String c EmptyString
      | r => String c r
      end
  end.

(** [s.strip()] *)
Definition strip (s : string) : string := rstrip (lstrip s).

(** [s.replace(old, new)] for a non-empty [old]: left to right, each
    occurrence of [old] found is replaced and the search resumes
    behind it; [skip] counts the characters of the occurrence that
    are still to be passed over. *)
Fixpoint replace_skip (skip : nat) (old new s : string) : string :=
  match s with
  | EmptyString => EmptyString
  | String c s' =>
      match skip with
      | S k => replace_skip k old new s'
      | O =>
          if String.prefix old s
          then new ++ replace_skip (String.length old - 1) old new s'
          else String c (replace_skip 0 old new s')
      end
  end.

Definition replace (old new s : string) : string :=
  replace_skip 0 old new s.

End Py.

(** ** [re.sub('(?!^)([A-Z]+)', r'_\1', s)] *)

Module Re.

(** The character class [[A-Z]]. *)
Definition in_A_Z (c : ascii) : bool := Py.between 65 90 (Py.ord c).

(** [[A-Z]+] is greedy: from the head of [s] it takes every capital
    there is.  The result is the text taken (empty when the head of
    [s] is no capital). *)
Fixpoint capitals (s : string) : string :=
  match s with
  | EmptyString => EmptyString
  | String c s' => if in_A_Z c then String c (capitals s') else EmptyString
  end.

(** One attempt of the pattern at position [pos], where [s] is the
    text from [pos] on.  [(?!^)] refuses position 0, the only place
    where [^] matches without the MULTILINE flag; then the group
    needs at least one capital.  The result is group 1. *)
Definition match_at (pos : nat) (s : string) : option string :=
  if Nat.eqb pos 0 then None
  else match capitals s with
       | EmptyString => None
       | g => Some g
       end.

(** The scan of [re.sub]: at each position the pattern is tried; a
    match is replaced by the template [_\1] and the scan resumes at
    its end ([skip] counts the matched characters still to pass);
    where the pattern fails the character is copied. *)
Fixpoint sub_from (pos skip : nat) (s : string) : string :=
  match s with
  | EmptyString => EmptyString
  | String c s' =>
      match skip with
      | S k => sub_from (S pos) k s'
      | O =>
          match match_at pos s with
          | Some g => "_" ++ g ++ sub_from (S pos) (String.length g - 1) s'
          | None => String c (sub_from (S pos) 0 s')
          end
      end
  end.

Definition sub (s : string) : string := sub_from 0 0 s.

End Re.

(** ** skchem/utils/string.py *)

(** [re.sub('(?!^)([A-Z]+)', r'_\1', s).lower()] *)
Definition camel_to_snail (s : string) : string := Py.lower (Re.sub s).

(** [s.strip().lower().replace(' ', '_')] *)
Definition free_to_snail (s : string) : string :=
  Py.replace " " "_" (Py.lower (Py.strip s)).

(** ** Python 3 numbers: [round], [format(_, '.2f')], [hex] *)

Module PyNum.

(** What a built-in raises. *)
Inductive exn : Set := ValueError | OverflowError.

(** The outcome of a call: a value, or an exception on its way up. *)
Inductive result (A : Type) : Type :=
| Return (a : A)
| Raise (e : exn).
Arguments Return {A} a.
Arguments Raise {A} e.

(** An exception raised by [r] skips what follows. *)
#[global] Instance result_bind : MBind result := fun A B k r =>
  match r with
  | Return a => k a
  | Raise e => Raise e
  end.

(** A Python [float]: [S754_finite s m e] is the double
    [(-1)^s * m * 2^e]. *)
Definition float : Set := spec_float.

(** The magnitude [m * 2^e] as a fraction of integers. *)
Definition ratio (m : positive) (e : Z) : Z * Z :=
  if (0 <=? e)%Z then ((Zpos m * 2 ^ e)%Z, 1%Z)
  else (Zpos m, (2 ^ (- e))%Z).

(** The integer nearest to [num / den] (for [den > 0]), a tie going
    to the even neighbour. *)
Definition nearest_even (num den : Z) : Z :=
  let q := (num / den)%Z in
  match (2 * (num mod den) ?= den)%Z with
  | Lt => q
  | Gt => (q + 1)%Z
  | Eq => if Z.even q then q else (q + 1)%Z
  end.

(** [round(x)] with one argument, as [float.__round__] does it: an
    [int], the nearest one with ties to even; no integer for a NaN
    or an infinity. *)
Definition round (x : float) : result Z :=
  match x with
  | S754_zero _ => Return 0%Z
  | S754_infinity _ => Raise OverflowError
  | S754_nan => Raise ValueError
  | S754_finite s m e =>
      let '(num, den) := ratio m e in
      let n := nearest_even num den in
      Return (if s then (- n)%Z else n)
  end.

(** [str(n)] for [n >= 0]. *)
Definition decimal (n : Z) : string :=
  DecimalString.NilZero.string_of_uint (N.to_uint (Z.to_N n)).

(** Two decimal digits, for [0 <= n < 100]. *)
Definition two_digits (n : Z) : string :=
  decimal (n / 10) ++ decimal (n mod 10).

(** The digits of a count [h] of hundredths: [h = 1234] is
    [12.34]. *)
Definition fixed2 (h : Z) : string :=
  decimal (h / 100) ++ "." ++ two_digits (h mod 100).

Definition sign_text (s : bool) : string := if s then "-" else "".

(** [format(x, '.2f')]: the decimal with two digits after the point
    that is nearest to the exact value of the double (ties to even),
    behind the sign bit; [nan], [inf] and [-inf] for the others. *)
Definition format_2f (x : float) : string :=
  match x with
  | S754_zero s => sign_text s ++ fixed2 0
  | S754_infinity s => sign_text s ++ "inf"
  | S754_nan => "nan"
  | S754_finite s m e =>
      let '(num, den) := ratio m e in
      sign_text s ++ fixed2 (nearest_even (100 * num) den)
  end.

(** [hex(n)] for [n >= 0]. *)
Definition hex (n : N) : string :=
  "0x" ++ HexadecimalString.NilZero.string_of_uint (N.to_hex_uint n).

End PyNum.

(** ** skchem/core/point3D.py *)

Module Point3D.

Import PyNum.

(** The fields the methods read: the three doubles of the rdkit
    point, and the name of the object's class
    ([self.__class__.__name__]: [Point3D], or the name of a
    subclass). *)
Record t : Set := mk {
  klass : string;
  x : float;
  y : float;
  z : float
}.

(** The live objects, by address; [id(o)] is the address of [o]. *)
Definition heap : Type := gmap N t.

(** [def to_dict(self, two_d=True)]: [two_d] is [None] where the
    call leaves the argument out. *)
Definition to_dict (self : t) (two_d : option bool)
  : result (gmap string Z) :=
  if default true two_d then
    rx ← round (x self);
    ry ← round (y self);
    Return (<["x" := rx]> (<["y" := ry]> ∅))
  else
    rx ← round (x self);
    ry ← round (y self);
    rz ← round (z self);
    Return (<["x" := rx]> (<["y" := ry]> (<["z" := rz]> ∅))).

(** The text [(x, y, z)] both templates share. *)
Definition coords (self : t) : string :=
  "(" ++ format_2f (x self) ++ ", " ++ format_2f (y self) ++ ", "
      ++ format_2f (z self) ++ ")".

Definition dquote : string := String (ascii_of_nat 34) EmptyString.

(** [self] is the address of the object, [o] what is stored there. *)
Definition __repr__ (self : N) (o : t) : string :=
  "<" ++ klass o ++ " coords=" ++ dquote ++ coords o ++ dquote
      ++ " at " ++ hex self ++ ">".

Definition __str__ (self : t) : string := coords self.

End Point3D.

(** ** Vocabulary of the specification *)

(** *** Capitals and runs *)

Definition capital_at (s : string) (i : nat) : bool :=
  match String.get i s with
  | Some c => Re.in_A_Z c
  | None => false
  end.

(** Where the pattern finds its matches: a run of capitals begins at
    index [i] among the characters behind the first one.  Index 0
    begins none, a capital at index 1 begins one whatever the first
    character is, and a later capital begins one when no capital is in
    front of it. *)
Definition run_begins (s : string) (i : nat) : bool :=
  match i with
  | 0 => false
  | 1 => capital_at s 1
  | S j => capital_at s i && negb (capital_at s j)
  end.

(** The indices where such runs begin. *)
Definition runs (s : string) : list nat :=
  List.filter (fun i => run_begins s i) (seq 0 (String.length s)).

(** The character at index [i], with an underscore in front of it
    when a run begins there. *)
Definition piece (s : string) (i : nat) : string :=
  (if run_begins s i then "_" else "")
  ++ match String.get i s with
     | Some c => String c EmptyString
     | None => EmptyString
     end.

Definition insert_underscores (s : string) : string :=
  String.concat "" (map (piece s) (seq 0 (String.length s))).

(** Underscores in front of the runs of the characters behind the
    first one, then everything in lower case. *)
Definition camel_to_snail_spec (s : string) : string :=
  Py.lower (insert_underscores s).

(** The sentence of the specification by the letter: a run of capitals
    is a maximal one, it begins at [i] when a capital is at [i] and
    none in front of it, and it is not at the start of the string when
    [i] is not 0. *)
Definition maximal_run_begins (s : string) (i : nat) : bool :=
  match i with
  | 0 => false
  | S j => capital_at s i && negb (capital_at s j)
  end.

Definition piece_as_stated (s : string) (i : nat) : string :=
  (if maximal_run_begins s i then "_" else "")
  ++ match String.get i s with
     | Some c => String c EmptyString
     | None => EmptyString
     end.

Definition camel_to_snail_as_stated (s : string) : string :=
  Py.lower
    (String.concat "" (map (piece_as_stated s) (seq 0 (String.length s)))).

(** How often [c] occurs in [s]. *)
Fixpoint occurrences (c : ascii) (s : string) : nat :=
  match s with
  | EmptyString => 0
  | String d s' => (if Ascii.eqb c d then 1 else 0) + occurrences c s'
  end.

(** The scan inside a match: the capitals still to come are copied,
    the scan goes on behind them. *)
Definition in_run (pos : nat) (t : string) : string :=
  Re.capitals t ++ Re.sub_from pos (String.length (Re.capitals t)) t.

(** The underscores of [s], counted through its indices. *)
Definition underscore_at (s : string) (i : nat) : bool :=
  match String.get i s with
  | Some c => Ascii.eqb "_" c
  | None => false
  end.

(** *** White space and snail case *)

(** Every character of [s] is white space. *)
Fixpoint all_space (s : string) : bool :=
  match s with
  | EmptyString => true
  | String c s' => Py.isspace c && all_space s'
  end.

Definition first_char (s : string) : option ascii :=
  match s with
  | EmptyString => None
  | String c _ => Some c
  end.

Fixpoint last_char (s : string) : option ascii :=
  match s with
  | EmptyString => None
  | String c EmptyString => Some c
  | String _ s' => last_char s'
  end.

(** [s] neither begins nor ends with white space. *)
Definition trimmed (s : string) : Prop :=
  (forall c, first_char s = Some c -> Py.isspace c = false) /\
  (forall c, last_char s = Some c -> Py.isspace c = false).

(** [f] applied to each character. *)
Fixpoint map_chars (f : ascii -> ascii) (s : string) : string :=
  match s with
  | EmptyString => EmptyString
  | String c s' => String (f c) (map_chars f s')
  end.

(** What becomes of one character that [strip] has kept: a space
    turns into an underscore, any other character into its lower
    case. *)
Definition snail_char (c : ascii) : ascii :=
  if Ascii.eqb c " " then "_"%char else Py.lower_char c.

(** What [replace(' ', '_')] makes of one character. *)
Definition underscore_for_space (c : ascii) : ascii :=
  if Ascii.eqb c " " then "_"%char else c.

(** A character of a lower-case word: [lower] leaves it as it is and
    it is no white space.  The underscore is one of them. *)
Definition word_char (c : ascii) : bool :=
  Ascii.eqb (Py.lower_char c) c && negb (Py.isspace c).

(** Snail case: lower-case words joined by underscores. *)
Fixpoint snail_case (s : string) : bool :=
  match s with
  | EmptyString => true
  | String c s' => word_char c && snail_case s'
  end.

(** *** Doubles and numerals *)

(** The exact value of a double that has one. *)
Definition value (x : PyNum.float) : Q :=
  match x with
  | S754_finite s m e =>
      (inject_Z (if s then Zneg m else Zpos m) * (2 # 1) ^ e)%Q
  | _ => 0%Q
  end.

Definition finite (x : PyNum.float) : bool :=
  match x with
  | S754_zero _ | S754_finite _ _ _ => true
  | _ => false
  end.

(** The sign bit of a zero, an infinity or a finite number; of a NaN
    [spec_float] keeps none. *)
Definition sign_bit (x : PyNum.float) : option bool :=
  match x with
  | S754_zero s | S754_infinity s | S754_finite s _ _ => Some s
  | S754_nan => None
  end.

(** The sign in front of a printed number. *)
Definition minus_text (x : PyNum.float) : string :=
  match sign_bit x with
  | Some true => "-"
  | _ => ""
  end.

(** The character of the digit [d], for [0 <= d < 10]. *)
Definition digit_char (d : Z) : ascii := ascii_of_nat (48 + Z.to_nat d).

(** [txt] has no zero in front: it is [0] itself or begins with
    another character. *)
Definition canonical (txt : string) : Prop :=
  txt = "0" \/ exists c r, txt = String c r /\ c <> "0"%char.

(** [n] is the integer nearest to [v]; half-way between two integers
    it is the even one. *)
Definition nearest (v : Q) (n : Z) : Prop :=
  (Qabs (v - inject_Z n) <= 1 # 2)%Q /\
  ((Qabs (v - inject_Z n) == 1 # 2)%Q -> Z.even n = true).

(** [txt] is a decimal numeral of [n]. *)
Definition numeral (txt : string) (n : Z) : Prop :=
  exists u, DecimalString.NilZero.uint_of_string txt = Some u
            /\ Z.of_N (N.of_uint u) = n.

(** [txt] is [x] to two decimal places: with [h] the count of
    hundredths nearest to the magnitude of [x], a minus sign when the
    sign bit is set, the numeral of [h / 100] without zeros in front,
    a point, and the two digits of [h mod 100]. *)
Definition two_places (x : PyNum.float) (txt : string) : Prop :=
  exists (h : Z) (ip : string),
    nearest (100 * Qabs (value x))%Q h
    /\ numeral ip (h / 100)
    /\ canonical ip
    /\ txt = minus_text x ++ ip ++ "."
             ++ String (digit_char (h mod 100 / 10))
                  (String (digit_char (h mod 100 mod 10)) "").

(** [txt] is a hexadecimal numeral of [n]. *)
Definition hex_numeral (txt : string) (n : N) : Prop :=
  exists u, HexadecimalString.NilZero.uint_of_string txt = Some u
            /\ N.of_hex_uint u = n.

(** *** Points *)

(** The invariant of the data model: three finite numbers. *)
Definition finite_point (p : Point3D.t) : Prop :=
  finite (Point3D.x p) = true /\ finite (Point3D.y p) = true
  /\ finite (Point3D.z p) = true.

Definition same_coords (p q : Point3D.t) : Prop :=
  Point3D.x p = Point3D.x q /\ Point3D.y p = Point3D.y q
  /\ Point3D.z p = Point3D.z q.

(** [txt] shows the three coordinates of [p], each to two decimal
    places. *)
Definition coords_text (p : Point3D.t) (txt : string) : Prop :=
  exists tx ty tz,
    txt = "(" ++ tx ++ ", " ++ ty ++ ", " ++ tz ++ ")"
    /\ two_places (Point3D.x p) tx
    /\ two_places (Point3D.y p) ty
    /\ two_places (Point3D.z p) tz.

Definition double_quote : string := String "034" EmptyString.

(** [txt] is a debug text of the object [o] at address [a]: the class
    name, the coordinates, and behind [0x] a token that is the address
    in hexadecimal, without zeros in front. *)
Definition debug_text (a : N) (o : Point3D.t) (txt tok : string) : Prop :=
  exists ctxt,
    txt = "<" ++ Point3D.klass o ++ " coords=" ++ double_quote ++ ctxt
              ++ double_quote ++ " at 0x" ++ tok ++ ">"
    /\ coords_text o ctxt
    /\ hex_numeral tok a
    /\ canonical tok.

(** *** The lives of objects *)

(** What happens to the heap: the constructor makes an object at an
    address, which the allocator takes among the free ones, and an
    object that is no longer referred to is removed. *)
Inductive event : Type :=
| New (a : N) (o : Point3D.t)
| Del (a : N).

Definition step (h : Point3D.heap) (e : event) : option Point3D.heap :=
  match e with
  | New a o =>
      match h !! a with
      | None => Some (<[a := o]> h)
      | Some _ => None
      end
  | Del a =>
      match h !! a with
      | Some _ => Some (delete a h)
      | None => None
      end
  end.

(** A history is possible from [h] when each of its steps is. *)
Fixpoint run (h : Point3D.heap) (es : list event) : option Point3D.heap :=
  match es with
  | [] => Some h
  | e :: es' =>
      match step h e with
      | Some h' => run h' es'
      | None => None
      end
  end.

(** The identifiers in the debug representations of any two separate
    instances of the same coordinates differ: the instances are two
    constructor calls of a possible history. *)
Definition separate_instances_differ : Prop :=
  forall (es : list event) (h : Point3D.heap) (i j : nat)
         (a1 a2 : N) (o1 o2 : Point3D.t),
    run ∅ es = Some h ->
    es !! i = Some (New a1 o1) ->
    es !! j = Some (New a2 o2) ->
    i <> j ->
    same_coords o1 o2 ->
    PyNum.hex a1 <> PyNum.hex a2.

(** The doubles that the literals [1.4], [2.6] and [3.5] denote, and
    the point made of them. *)
Definition d1_4 : PyNum.float := S754_finite false 6305039478318694 (-52).
Definition d2_6 : PyNum.float := S754_finite false 5854679515581645 (-51).
Definition d3_5 : PyNum.float := S754_finite false 7881299347898368 (-51).
Definition sample : Point3D.t := Point3D.mk "Point3D" d1_4 d2_6 d3_5.

(** The doubles [1.0], [2.0] and [3.0], and the point (1, 2, 3). *)
Definition d1 : PyNum.float := S754_finite false 4503599627370496 (-52).
Definition d2 : PyNum.float := S754_finite false 4503599627370496 (-51).
Definition d3 : PyNum.float := S754_finite false 6755399441055744 (-51).
Definition p123 : Point3D.t := Point3D.mk "Point3D" d1 d2 d3.

(** [x] is a binary64 number. *)
Definition binary64 (x : PyNum.float) : bool :=
  match x with
  | S754_finite _ m e => bounded 53 1024 m e
  | _ => true
  end.


(** Two points made by two calls of [Point3D(1.4, 2.6, 3.5)]. *)
(** The doubles [-1.5] and [-0.0], and the point (-1.5, -0.0, 3). *)
Definition dm1_5 : PyNum.float := S754_finite true 6755399441055744 (-52).
Definition dm0 : PyNum.float := S754_zero true.
Definition p_signed : Point3D.t := Point3D.mk "Point3D" dm1_5 dm0 d3.

(** Two points made by two calls of [Point3D(1.4, 2.6, 3.5)], both
    alive; and two such calls with the first point gone before the
    second, which the allocator may put where the first was. *)
Definition two_alive : list event := [New 1 sample; New 2 sample].
Definition one_after_another : list event :=
  [New 1 sample; Del 1; New 1 sample].

(** *** Further vocabulary *)

(** Some character of [s] is a capital of [[A-Z]]. *)
Fixpoint has_capital (s : string) : bool :=
  match s with
  | EmptyString => false
  | String c s' => Re.in_A_Z c || has_capital s'
  end.

(** What [round] raises on [x], if it raises. *)
Definition round_error (x : PyNum.float) : option PyNum.exn :=
  match x with
  | S754_nan => Some PyNum.ValueError
  | S754_infinity _ => Some PyNum.OverflowError
  | _ => None
  end.

(** The coordinate of [p] that the key [k] of the mapping names. *)
Definition coord (p : Point3D.t) (k : string) : option PyNum.float :=
  if String.eqb k "x" then Some (Point3D.x p)
  else if String.eqb k "y" then Some (Point3D.y p)
  else if String.eqb k "z" then Some (Point3D.z p)
  else None.

(** * Proofs *)

(** ** Strings *)

Lemma app_cons (c : ascii) (s t : string) :
  String c s ++ t = String c (s ++ t).
Proof. reflexivity. Qed.

Lemma app_empty_l (s : string) : "" ++ s = s.
Proof. reflexivity. Qed.

Lemma app_empty_r (s : string) : s ++ "" = s.
Proof. induction s as [|c s IH]; [reflexivity|]. now rewrite app_cons, IH. Qed.

Lemma app_assoc_str (s t u : string) : (s ++ t) ++ u = s ++ t ++ u.
Proof.
  induction s as [|c s IH]; [reflexivity|].
  now rewrite !app_cons, IH.
Qed.

Lemma length_app_str (s t : string) :
  String.length (s ++ t) = String.length s + String.length t.
Proof.
  induction s as [|c s IH]; [reflexivity|].
  rewrite app_cons. simpl. now rewrite IH.
Qed.

Lemma get_app_here (pre : string) (c : ascii) (t : string) :
  String.get (String.length pre) (pre ++ String c t) = Some c.
Proof. induction pre as [|d pre IH]; [reflexivity|]. rewrite app_cons. exact IH. Qed.


Lemma length_lower (s : string) : String.length (Py.lower s) = String.length s.
Proof. induction s as [|c s IH]; simpl; congruence. Qed.

(** ** The scan of [re.sub] *)

Lemma concat_empty_cons (x : string) (xs : list string) :
  String.concat "" (x :: xs) = x ++ String.concat "" xs.
Proof.
  destruct xs as [|y ys]; simpl.
  - now rewrite app_empty_r.
  - reflexivity.
Qed.

Lemma capitals_cons (c : ascii) (t : string) :
  Re.capitals (String c t) =
  if Re.in_A_Z c then String c (Re.capitals t) else "".
Proof. reflexivity. Qed.

Lemma sub_from_scan (p : nat) (c : ascii) (t : string) :
  Re.sub_from (S p) 0 (String c t) =
  if Re.in_A_Z c then "_" ++ String c (in_run (S (S p)) t)
  else String c (Re.sub_from (S (S p)) 0 t).
Proof.
  cbn [Re.sub_from]. unfold Re.match_at. cbn [Nat.eqb].
  rewrite capitals_cons. destruct (Re.in_A_Z c); [|reflexivity].
  cbn [String.length]. rewrite app_cons.
  replace (S (String.length (Re.capitals t)) - 1)
    with (String.length (Re.capitals t)) by lia.
  reflexivity.
Qed.

Lemma in_run_step (p : nat) (c : ascii) (t : string) :
  in_run (S p) (String c t) =
  if Re.in_A_Z c then String c (in_run (S (S p)) t)
  else String c (Re.sub_from (S (S p)) 0 t).
Proof.
  unfold in_run at 1. rewrite capitals_cons.
  destruct (Re.in_A_Z c) eqn:E.
  - cbn [String.length Re.sub_from]. rewrite app_cons. reflexivity.
  - cbn [String.length]. rewrite app_empty_l, sub_from_scan, E. reflexivity.
Qed.

Lemma capital_at_here (pre : string) (c : ascii) (t : string) :
  capital_at (pre ++ String c t) (String.length pre) = Re.in_A_Z c.
Proof. unfold capital_at. now rewrite get_app_here. Qed.

Lemma pieces_scan (t : string) : forall (pre : string) (d : ascii),
  String.concat ""
    (map (piece (pre ++ String d t))
         (seq (S (String.length pre)) (String.length t))) =
  if Re.in_A_Z d && negb (Nat.eqb (String.length pre) 0)
  then in_run (S (String.length pre)) t
  else Re.sub_from (S (String.length pre)) 0 t.
Proof.
  induction t as [|c t IH]; intros pre d.
  - cbn [String.length seq map String.concat]. unfold in_run.
    now destruct (_ && _).
  - cbn [String.length seq map]. rewrite concat_empty_cons.
    assert (E : pre ++ String d (String c t) = (pre ++ String d "") ++ String c t)
      by now rewrite app_assoc_str.
    assert (L : String.length (pre ++ String d "") = S (String.length pre))
      by (rewrite length_app_str; cbn [String.length]; lia).
    specialize (IH (pre ++ String d "") c). rewrite <- E, L in IH.
    cbn [Nat.eqb negb] in IH. rewrite andb_true_r in IH. rewrite IH.
    unfold piece.
    replace (String.get (S (String.length pre)) (pre ++ String d (String c t)))
      with (Some c) by (now rewrite E, <- L, get_app_here).
    assert (Hc : capital_at (pre ++ String d (String c t)) (S (String.length pre))
                 = Re.in_A_Z c)
      by (now rewrite E, <- L, capital_at_here).
    assert (Hd : capital_at (pre ++ String d (String c t)) (String.length pre)
                 = Re.in_A_Z d)
      by apply capital_at_here.
    rewrite in_run_step, sub_from_scan.
    unfold run_begins.
    destruct (String.length pre) as [|k] eqn:Ek.
    + rewrite Hc. cbn [Nat.eqb negb]. rewrite andb_false_r.
      destruct (Re.in_A_Z c); reflexivity.
    + rewrite Hc, Hd. cbn [Nat.eqb negb]. rewrite andb_true_r.
      destruct (Re.in_A_Z c), (Re.in_A_Z d); reflexivity.
Qed.

Lemma sub_cons (c : ascii) (t : string) :
  Re.sub (String c t) = String c (Re.sub_from 1 0 t).
Proof. reflexivity. Qed.

(** The scan of [re.sub] puts the underscores where the runs begin. *)
Lemma sub_insert_underscores (s : string) : Re.sub s = insert_underscores s.
Proof.
  destruct s as [|c t]; [reflexivity|].
  unfold insert_underscores. cbn [String.length seq map].
  rewrite concat_empty_cons, sub_cons.
  pose proof (pieces_scan t "" c) as H.
  cbn [String.length Nat.eqb negb] in H. rewrite andb_false_r in H.
  rewrite app_empty_l in H. rewrite H. reflexivity.
Qed.

Ltac ascii_cases c := destruct c as [[] [] [] [] [] [] [] []].

Lemma sub_from_pos (t : string) : forall p q k : nat,
  Re.sub_from (S p) k t = Re.sub_from (S q) k t.
Proof.
  induction t as [|c t IH]; intros p q k; [reflexivity|].
  destruct k as [|k].
  - rewrite !sub_from_scan. unfold in_run.
    now rewrite (IH (S p) (S q) 0), (IH (S p) (S q) (String.length (Re.capitals t))).
  - cbn [Re.sub_from]. apply IH.
Qed.

Lemma in_run_pos (t : string) (p q : nat) : in_run (S p) t = in_run (S q) t.
Proof. unfold in_run. now rewrite (sub_from_pos t p q). Qed.

(** Behind a run [g] of capitals the scan goes on in [rest]. *)
Lemma in_run_app (g rest : string) (p : nat) :
  Re.capitals g = g ->
  Re.capitals rest = "" ->
  in_run (S p) (g ++ rest) = g ++ Re.sub_from 1 0 rest.
Proof.
  revert p. induction g as [|c g IH]; intros p Hg Hr.
  - rewrite app_empty_l. unfold in_run. rewrite Hr. cbn [String.length].
    rewrite !app_empty_l. apply sub_from_pos.
  - rewrite capitals_cons in Hg. destruct (Re.in_A_Z c) eqn:E; [|discriminate].
    injection Hg as Hg. rewrite app_cons, in_run_step, E, IH by assumption.
    reflexivity.
Qed.

(** Where the text begins with no capital, the scan from a later
    position does what the scan from the start does. *)
Lemma sub_from_no_capital (rest : string) :
  Re.capitals rest = "" -> Re.sub_from 1 0 rest = Re.sub rest.
Proof.
  destruct rest as [|d r]; [reflexivity|]. rewrite capitals_cons.
  destruct (Re.in_A_Z d) eqn:E; [discriminate|]. intros _.
  now rewrite sub_from_scan, E, sub_cons, (sub_from_pos r 1 0).
Qed.

Lemma get_some (s : string) : forall i : nat,
  i < String.length s -> exists c, String.get i s = Some c.
Proof.
  induction s as [|d s IH]; intros i Hi; cbn [String.length] in Hi; [lia|].
  destruct i as [|i]; [now exists d|]. cbn [String.get]. apply IH. lia.
Qed.

Lemma length_pieces (s : string) (l : list nat) :
  Forall (fun i => i < String.length s) l ->
  String.length (String.concat "" (map (piece s) l)) =
  length l + length (List.filter (fun i => run_begins s i) l).
Proof.
  induction 1 as [|i l Hi _ IH]; [reflexivity|].
  cbn [map List.filter]. rewrite concat_empty_cons, length_app_str, IH.
  unfold piece. destruct (get_some s i Hi) as [c ->].
  destruct (run_begins s i); rewrite ?app_cons, ?app_empty_l;
    cbn [String.length length]; lia.
Qed.

Lemma seq_below (n : nat) : Forall (fun i => i < n) (seq 0 n).
Proof. apply List.Forall_forall. intros i Hi. apply in_seq in Hi. lia. Qed.

Lemma occurrences_app (c : ascii) (s t : string) :
  occurrences c (s ++ t) = occurrences c s + occurrences c t.
Proof.
  induction s as [|d s IH]; [reflexivity|].
  rewrite app_cons. cbn [occurrences]. rewrite IH. lia.
Qed.

Lemma lower_char_underscore (c : ascii) :
  Ascii.eqb "_" (Py.lower_char c) = Ascii.eqb "_" c.
Proof. ascii_cases c; reflexivity. Qed.

Lemma occurrences_lower (s : string) :
  occurrences "_" (Py.lower s) = occurrences "_" s.
Proof.
  induction s as [|c s IH]; [reflexivity|].
  cbn [Py.lower occurrences]. now rewrite lower_char_underscore, IH.
Qed.

Lemma occurrences_pieces (s : string) (l : list nat) :
  occurrences "_" (String.concat "" (map (piece s) l)) =
  length (List.filter (underscore_at s) l)
  + length (List.filter (fun i => run_begins s i) l).
Proof.
  induction l as [|i l IH]; [reflexivity|].
  cbn [map List.filter]. rewrite concat_empty_cons, occurrences_app, IH.
  unfold piece, underscore_at.
  destruct (run_begins s i), (String.get i s) as [c|];
    cbn [occurrences length]; rewrite ?app_cons, ?app_empty_l;
    cbn [occurrences length]; try destruct (Ascii.eqb "_" c);
    cbn [length Ascii.eqb]; simpl; lia.
Qed.

Lemma occurrences_indices (s : string) : forall pre : string,
  length (List.filter (underscore_at (pre ++ s))
                 (seq (String.length pre) (String.length s))) =
  occurrences "_" s.
Proof.
  induction s as [|c s IH]; intros pre; [reflexivity|].
  cbn [String.length seq List.filter occurrences].
  unfold underscore_at at 1. rewrite get_app_here.
  specialize (IH (pre ++ String c "")).
  rewrite app_assoc_str, length_app_str in IH. cbn [String.length] in IH.
  rewrite app_cons, app_empty_l in IH.
  replace (String.length pre + 1) with (S (String.length pre)) in IH by lia.
  destruct (Ascii.eqb "_" c); cbn [length]; rewrite IH; reflexivity.
Qed.

(** ** [strip], [lower] and [replace] *)

Lemma lstrip_split (s : string) :
  exists l, s = l ++ Py.lstrip s /\ all_space l = true.
Proof.
  induction s as [|c s (l & E & Hl)].
  - now exists "".
  - cbn [Py.lstrip]. destruct (Py.isspace c) eqn:Hc.
    + exists (String c l). rewrite app_cons, <- E. cbn [all_space].
      now rewrite Hc, Hl.
    + now exists "".
Qed.

Lemma lstrip_first (s : string) (c : ascii) :
  first_char (Py.lstrip s) = Some c -> Py.isspace c = false.
Proof.
  induction s as [|d s IH]; [discriminate|].
  cbn [Py.lstrip]. destruct (Py.isspace d) eqn:Hd; [exact IH|].
  cbn [first_char]. congruence.
Qed.

Lemma rstrip_cons (c : ascii) (s : string) :
  Py.rstrip (String c s) =
  match Py.rstrip s with
  | EmptyString => if Py.isspace c then "" else String c ""
  | r => String c r
  end.
Proof. reflexivity. Qed.

Lemma rstrip_split (s : string) :
  exists r, s = Py.rstrip s ++ r /\ all_space r = true.
Proof.
  induction s as [|c s (r & E & Hr)].
  - now exists "".
  - rewrite rstrip_cons. destruct (Py.rstrip s) as [|d u] eqn:Eu.
    + rewrite app_empty_l in E. subst r.
      destruct (Py.isspace c) eqn:Hc.
      * exists (String c s). cbn [all_space]. now rewrite Hc, Hr.
      * exists s. now rewrite app_cons, app_empty_l.
    + exists r. now rewrite app_cons, <- E.
Qed.

Lemma rstrip_last (s : string) (c : ascii) :
  last_char (Py.rstrip s) = Some c -> Py.isspace c = false.
Proof.
  revert c. induction s as [|d s IH]; intros c; [discriminate|].
  rewrite rstrip_cons. destruct (Py.rstrip s) as [|e u] eqn:Eu.
  - destruct (Py.isspace d) eqn:Hd; [discriminate|].
    cbn [last_char]. congruence.
  - intros H. apply IH. exact H.
Qed.

Lemma rstrip_first (s : string) (c : ascii) :
  first_char (Py.rstrip s) = Some c -> first_char s = Some c.
Proof.
  destruct s as [|d s]; [discriminate|]. rewrite rstrip_cons.
  destruct (Py.rstrip s); [destruct (Py.isspace d)|]; cbn [first_char]; congruence.
Qed.

Lemma strip_split (s : string) :
  exists l r, s = l ++ Py.strip s ++ r
              /\ all_space l = true /\ all_space r = true.
Proof.
  destruct (lstrip_split s) as (l & El & Hl).
  destruct (rstrip_split (Py.lstrip s)) as (r & Er & Hr).
  exists l, r. unfold Py.strip. now rewrite <- Er, <- El.
Qed.

Lemma strip_trimmed (s : string) : trimmed (Py.strip s).
Proof.
  split; intros c H.
  - apply (lstrip_first s). now apply rstrip_first.
  - now apply (rstrip_last (Py.lstrip s)).
Qed.

Lemma lstrip_id (s : string) :
  (forall c, first_char s = Some c -> Py.isspace c = false) -> Py.lstrip s = s.
Proof.
  destruct s as [|c s]; [reflexivity|]. intros H. cbn [Py.lstrip].
  now rewrite (H c eq_refl).
Qed.

Lemma rstrip_id (s : string) :
  (forall c, last_char s = Some c -> Py.isspace c = false) -> Py.rstrip s = s.
Proof.
  induction s as [|c s IH]; [reflexivity|]. intros H. rewrite rstrip_cons.
  destruct s as [|d s].
  - cbn [Py.rstrip]. now rewrite (H c eq_refl).
  - rewrite IH by (intros e He; apply H; exact He). reflexivity.
Qed.

Lemma strip_id (s : string) : trimmed s -> Py.strip s = s.
Proof.
  intros [Hf Hl]. unfold Py.strip. rewrite (lstrip_id s Hf). now apply rstrip_id.
Qed.

Lemma replace_space (s : string) :
  Py.replace " " "_" s =
  map_chars (fun c => if Ascii.eqb c " " then "_"%char else c) s.
Proof.
  unfold Py.replace. induction s as [|c s IH]; [reflexivity|].
  cbn [Py.replace_skip map_chars String.length Nat.sub].
  cbn [String.prefix]. rewrite <- IH.
  destruct (Ascii.eqb_spec c " ") as [->|Hc].
  - destruct (ascii_dec " " " ") as [_|N]; [|now destruct N].
    now destruct s.
  - destruct (ascii_dec " " c) as [E|_]; [now destruct Hc|]. reflexivity.
Qed.

Lemma lower_map (s : string) : Py.lower s = map_chars Py.lower_char s.
Proof. induction s as [|c s IH]; [reflexivity|]. simpl. now rewrite IH. Qed.

Lemma map_chars_compose (f g : ascii -> ascii) (s : string) :
  map_chars f (map_chars g s) = map_chars (fun c => f (g c)) s.
Proof. induction s as [|c s IH]; [reflexivity|]. simpl. now rewrite IH. Qed.

Lemma map_chars_ext (f g : ascii -> ascii) (s : string) :
  (forall c, f c = g c) -> map_chars f s = map_chars g s.
Proof. intros H. induction s as [|c s IH]; [reflexivity|]. simpl. now rewrite H, IH. Qed.

Lemma snail_char_lower (c : ascii) :
  (if Ascii.eqb (Py.lower_char c) " " then "_"%char else Py.lower_char c)
  = snail_char c.
Proof. ascii_cases c; reflexivity. Qed.

(** The three calls of [free_to_snail], character by character. *)
Lemma free_to_snail_chars (s : string) :
  free_to_snail s = map_chars snail_char (Py.strip s).
Proof.
  unfold free_to_snail. rewrite replace_space, lower_map, map_chars_compose.
  apply map_chars_ext, snail_char_lower.
Qed.

Lemma first_char_map (f : ascii -> ascii) (s : string) :
  first_char (map_chars f s) = option_map f (first_char s).
Proof. now destruct s. Qed.

Lemma last_char_map (f : ascii -> ascii) (s : string) :
  last_char (map_chars f s) = option_map f (last_char s).
Proof.
  induction s as [|c s IH]; [reflexivity|].
  destruct s as [|d s]; [reflexivity|]. exact IH.
Qed.

Lemma get_map_chars (f : ascii -> ascii) (s : string) : forall i : nat,
  String.get i (map_chars f s) = option_map f (String.get i s).
Proof.
  induction s as [|c s IH]; intros [|i]; try reflexivity. apply IH.
Qed.

Lemma length_map_chars (f : ascii -> ascii) (s : string) :
  String.length (map_chars f s) = String.length s.
Proof. induction s as [|c s IH]; simpl; congruence. Qed.

Lemma snail_char_space (c : ascii) :
  Py.isspace (snail_char c) = Py.isspace c && negb (Ascii.eqb c " ").
Proof. ascii_cases c; reflexivity. Qed.

Lemma snail_char_white (c : ascii) :
  Py.isspace c = true -> Ascii.eqb c " " = false -> snail_char c = c.
Proof. ascii_cases c; intros H1 H2; try reflexivity; discriminate. Qed.

Lemma snail_char_underscore (c : ascii) :
  Ascii.eqb (snail_char c) "_" = Ascii.eqb c " " || Ascii.eqb c "_".
Proof. ascii_cases c; reflexivity. Qed.

Lemma snail_char_underscore_iff (c : ascii) :
  snail_char c = "_"%char <-> c = " "%char \/ c = "_"%char.
Proof.
  rewrite <- !Ascii.eqb_eq, snail_char_underscore. apply orb_true_iff.
Qed.

Lemma snail_char_twice (c : ascii) : snail_char (snail_char c) = snail_char c.
Proof. ascii_cases c; reflexivity. Qed.

Lemma trimmed_map_snail (m : string) :
  trimmed m -> trimmed (map_chars snail_char m).
Proof.
  intros [Hf Hl]. split; intros c.
  - rewrite first_char_map. destruct (first_char m) as [d|]; [|discriminate].
    intros [= <-]. rewrite snail_char_space, (Hf d eq_refl). reflexivity.
  - rewrite last_char_map. destruct (last_char m) as [d|]; [|discriminate].
    intros [= <-]. rewrite snail_char_space, (Hl d eq_refl). reflexivity.
Qed.

Lemma free_to_snail_trimmed (s : string) : trimmed (free_to_snail s).
Proof. rewrite free_to_snail_chars. apply trimmed_map_snail, strip_trimmed. Qed.

(** A second pass of [free_to_snail] finds nothing left to do. *)
Lemma free_to_snail_again (s : string) :
  free_to_snail (free_to_snail s) = free_to_snail s.
Proof.
  rewrite (free_to_snail_chars (free_to_snail s)).
  rewrite (strip_id _ (free_to_snail_trimmed s)).
  rewrite free_to_snail_chars, map_chars_compose.
  apply map_chars_ext, snail_char_twice.
Qed.

Lemma word_char_snail (c : ascii) : word_char c = true -> snail_char c = c.
Proof. ascii_cases c; intros H; try reflexivity; discriminate. Qed.

Lemma snail_case_fixed (s : string) :
  snail_case s = true -> map_chars snail_char s = s.
Proof.
  induction s as [|c s IH]; [reflexivity|]. cbn [snail_case map_chars].
  intros [Hc Hs]%andb_prop. now rewrite (word_char_snail c Hc), IH.
Qed.

(** ** Doubles, rounding and fixed-point text *)

Lemma nearest_even_close (num den : Z) :
  (0 < den)%Z ->
  (Z.abs (2 * num - 2 * PyNum.nearest_even num den * den) <= den)%Z /\
  (Z.abs (2 * num - 2 * PyNum.nearest_even num den * den) = den ->
   Z.even (PyNum.nearest_even num den) = true).
Proof.
  intros Hden. unfold PyNum.nearest_even.
  pose proof (Z.div_mod num den ltac:(lia)) as Hdm.
  pose proof (Z.mod_pos_bound num den Hden) as Hr.
  set (q := (num / den)%Z) in *. set (r := (num mod den)%Z) in *.
  destruct (Z.compare_spec (2 * r) den) as [E|L|G].
  - destruct (Z.even q) eqn:Hq.
    + split; [nia|auto].
    + split; [nia|]. intros _. rewrite Z.even_add, Hq. reflexivity.
  - split; [nia|]. intros H. exfalso. nia.
  - split; [nia|]. intros H. exfalso. nia.
Qed.

Lemma nearest_even_nonneg (num den : Z) :
  (0 <= num)%Z -> (0 < den)%Z -> (0 <= PyNum.nearest_even num den)%Z.
Proof.
  intros Hn Hd. unfold PyNum.nearest_even.
  pose proof (Z.div_pos num den Hn Hd).
  destruct (_ ?= _)%Z; [destruct (Z.even _)| |]; lia.
Qed.

Lemma nearest_fraction (num den n : Z) :
  (0 < den)%Z ->
  (Z.abs (2 * num - 2 * n * den) <= den)%Z ->
  (Z.abs (2 * num - 2 * n * den) = den -> Z.even n = true) ->
  nearest (num # Z.to_pos den) n.
Proof.
  intros Hd Hle Heven.
  assert (Hp : Zpos (Z.to_pos den) = den) by (apply Z2Pos.id; lia).
  assert (Habs : (Qabs ((num # Z.to_pos den) - inject_Z n)
                  == Z.abs (num - n * den) # Z.to_pos den)%Q).
  { unfold Qminus, Qplus, Qopp, inject_Z, Qabs, Qeq. cbn [Qnum Qden].
    rewrite Pos.mul_1_r, Hp. f_equal. f_equal. lia. }
  split.
  - rewrite Habs. unfold Qle. cbn [Qnum Qden]. rewrite Hp. lia.
  - rewrite Habs. unfold Qeq. cbn [Qnum Qden]. rewrite Hp.
    intros H. apply Heven. lia.
Qed.

Lemma nearest_opp (v : Q) (n : Z) : nearest v n -> nearest (- v)%Q (- n)%Z.
Proof.
  assert (E : (Qabs (- v - inject_Z (- n)) == Qabs (v - inject_Z n))%Q).
  { rewrite <- (Qabs_opp (v - inject_Z n)). apply Qabs_wd.
    rewrite inject_Z_opp. ring. }
  intros [H1 H2]. split.
  - now rewrite E.
  - rewrite E, Z.even_opp. exact H2.
Qed.

Lemma two_power (e : Z) : (0 <= e)%Z -> ((2 # 1) ^ e == inject_Z (2 ^ e))%Q.
Proof. intros He. now rewrite Zpower_Qpower. Qed.

(** The fraction of integers [ratio] gives is the magnitude. *)
Lemma ratio_value (m : positive) (e : Z) :
  (0 <= fst (PyNum.ratio m e))%Z /\ (0 < snd (PyNum.ratio m e))%Z /\
  (inject_Z (Zpos m) * (2 # 1) ^ e
   == fst (PyNum.ratio m e) # Z.to_pos (snd (PyNum.ratio m e)))%Q.
Proof.
  unfold PyNum.ratio. destruct (Z.leb_spec 0 e) as [He|He]; cbn [fst snd].
  - split; [|split]; [pose proof (Z.pow_pos_nonneg 2 e); lia | lia |].
    rewrite two_power by assumption. rewrite <- inject_Z_mult. reflexivity.
  - assert (Hpow : (0 < 2 ^ (- e))%Z) by (apply Z.pow_pos_nonneg; lia).
    split; [|split]; [lia|assumption|].
    replace e with (- (- e))%Z at 1 by lia.
    rewrite Qpower_opp, two_power by lia.
    rewrite (Qmake_Qdiv (Zpos m) (Z.to_pos (2 ^ (- e)))).
    rewrite Z2Pos.id by assumption. reflexivity.
Qed.

Lemma nearest_wd (v w : Q) (n : Z) : (v == w)%Q -> nearest v n -> nearest w n.
Proof.
  intros E [H1 H2].
  assert (Ea : (Qabs (w - inject_Z n) == Qabs (v - inject_Z n))%Q)
    by (apply Qabs_wd; rewrite E; reflexivity).
  split; rewrite Ea; assumption.
Qed.

Lemma nearest_ratio (m : positive) (e : Z) (k : Z) :
  (0 < k)%Z ->
  nearest (inject_Z k * (inject_Z (Zpos m) * (2 # 1) ^ e))%Q
          (PyNum.nearest_even (k * fst (PyNum.ratio m e)) (snd (PyNum.ratio m e))).
Proof.
  intros Hk. destruct (ratio_value m e) as (Hn & Hd & E).
  set (num := fst (PyNum.ratio m e)) in *.
  set (den := snd (PyNum.ratio m e)) in *.
  destruct (nearest_even_close (k * num) den Hd) as [H1 H2].
  apply (nearest_wd ((k * num) # Z.to_pos den)).
  - rewrite E. unfold Qeq, Qmult, inject_Z. cbn [Qnum Qden]. lia.
  - now apply nearest_fraction.
Qed.

Lemma value_neg (m : positive) (e : Z) :
  (value (S754_finite true m e) == - (inject_Z (Zpos m) * (2 # 1) ^ e))%Q.
Proof.
  cbn [value]. change (Zneg m) with (- Zpos m)%Z. rewrite inject_Z_opp. ring.
Qed.

Lemma value_pos (m : positive) (e : Z) :
  (value (S754_finite false m e) == inject_Z (Zpos m) * (2 # 1) ^ e)%Q.
Proof. reflexivity. Qed.

Lemma magnitude_nonneg (m : positive) (e : Z) :
  (0 <= inject_Z (Zpos m) * (2 # 1) ^ e)%Q.
Proof.
  apply Qmult_le_0_compat.
  - unfold Qle, inject_Z. cbn [Qnum Qden]. lia.
  - apply Qpower_0_le. unfold Qle. cbn [Qnum Qden]. lia.
Qed.

Lemma abs_value (s : bool) (m : positive) (e : Z) :
  (Qabs (value (S754_finite s m e)) == inject_Z (Zpos m) * (2 # 1) ^ e)%Q.
Proof.
  destruct s.
  - rewrite value_neg, Qabs_opp. apply Qabs_pos, magnitude_nonneg.
  - rewrite value_pos. apply Qabs_pos, magnitude_nonneg.
Qed.

(** [round] of a finite double returns, and returns the nearest
    integer. *)
Lemma round_finite (x : PyNum.float) :
  finite x = true ->
  exists n, PyNum.round x = PyNum.Return n /\ nearest (value x) n.
Proof.
  destruct x as [s|s| |s m e]; try discriminate; intros _.
  - exists 0%Z. split; [reflexivity|]. split; [discriminate|]. reflexivity.
  - cbn [PyNum.round].
    pose proof (nearest_ratio m e 1 ltac:(lia)) as H.
    rewrite Z.mul_1_l in H.
    destruct (PyNum.ratio m e) as [num den]. cbn [fst snd] in H.
    eexists. split; [reflexivity|].
    assert (H' : nearest (inject_Z (Zpos m) * (2 # 1) ^ e)%Q
                         (PyNum.nearest_even num den)).
    { eapply nearest_wd; [|exact H]. change (inject_Z 1) with 1%Q. ring. }
    destruct s.
    + apply (nearest_wd (- (inject_Z (Zpos m) * (2 # 1) ^ e))%Q).
      * symmetry. apply value_neg.
      * now apply nearest_opp.
    + exact H'.
Qed.

Lemma numeral_decimal (n : Z) : (0 <= n)%Z -> numeral (PyNum.decimal n) n.
Proof.
  intros Hn. exists (N.to_uint (Z.to_N n)). unfold PyNum.decimal. split.
  - apply DecimalString.NilZero.usu. destruct (Z.to_N n) as [|q].
    + discriminate.
    + apply DecimalPos.Unsigned.to_uint_nonnil.
  - rewrite DecimalN.Unsigned.of_to. lia.
Qed.

Lemma decimal_normal (n : N) : Decimal.unorm (N.to_uint n) = N.to_uint n.
Proof.
  rewrite <- (DecimalN.Unsigned.of_to n) at 2.
  now rewrite DecimalN.Unsigned.to_of.
Qed.

Lemma decimal_text_canonical (u : Decimal.uint) :
  Decimal.unorm u = u -> canonical (DecimalString.NilZero.string_of_uint u).
Proof.
  destruct u; try (intros _; right; eexists _, _;
                   split; [reflexivity|discriminate]).
  - discriminate.
  - rewrite DecimalFacts.unorm_D0. unfold Decimal.unorm.
    pose proof (DecimalFacts.nzhead_nonzero u) as Hnz.
    destruct (Decimal.nzhead u) eqn:E; intros H;
      try discriminate H; try (now destruct (Hnz u0)).
    injection H as <-. now left.
Qed.

Lemma decimal_canonical (n : Z) : canonical (PyNum.decimal n).
Proof. apply decimal_text_canonical, decimal_normal. Qed.

(** A numeral without zeros in front is read as a number in normal
    form. *)
Lemma canonical_normal (txt : string) (u : Decimal.uint) :
  DecimalString.NilZero.uint_of_string txt = Some u ->
  canonical txt -> Decimal.unorm u = u.
Proof.
  intros Hu Hc. pose proof (DecimalString.NilZero.sus _ _ Hu) as Hs.
  destruct u; try reflexivity.
  - now destruct (DecimalString.NilZero.uint_of_string_nonnil txt).
  - cbn in Hs. destruct Hc as [->|(c & r & -> & Hc)].
    + injection Hs as Hs. destruct u; try discriminate. reflexivity.
    + injection Hs as <- _. now destruct Hc.
Qed.

Lemma canonical_numeral_unique (t1 t2 : string) (n : Z) :
  numeral t1 n -> canonical t1 -> numeral t2 n -> canonical t2 -> t1 = t2.
Proof.
  intros (u1 & H1 & E1) C1 (u2 & H2 & E2) C2.
  assert (E : N.of_uint u1 = N.of_uint u2) by lia.
  apply DecimalN.Unsigned.of_inj in E.
  rewrite (canonical_normal t1 u1 H1 C1), (canonical_normal t2 u2 H2 C2) in E.
  subst u2.
  rewrite <- (DecimalString.NilZero.sus _ _ H1).
  now rewrite <- (DecimalString.NilZero.sus _ _ H2).
Qed.

Lemma two_digits_chars (k : Z) :
  (0 <= k < 100)%Z ->
  PyNum.two_digits k
  = String (digit_char (k / 10)) (String (digit_char (k mod 10)) "").
Proof.
  intros Hk. rewrite <- (Z2Nat.id k) by lia.
  assert (Hj : Z.to_nat k < 100) by lia.
  generalize dependent (Z.to_nat k). clear k Hk. intros j Hj.
  do 100 (destruct j as [|j]; [reflexivity|]).
  lia.
Qed.

Lemma fixed2_text (h : Z) :
  (0 <= h)%Z ->
  PyNum.fixed2 h
  = PyNum.decimal (h / 100) ++ "."
    ++ String (digit_char (h mod 100 / 10))
         (String (digit_char (h mod 100 mod 10)) "").
Proof.
  intros Hh. unfold PyNum.fixed2.
  now rewrite two_digits_chars by (apply Z.mod_pos_bound; lia).
Qed.

Lemma fixed2_places (x : PyNum.float) (s : bool) (h : Z) :
  (0 <= h)%Z ->
  sign_bit x = Some s ->
  nearest (100 * Qabs (value x))%Q h ->
  two_places x (PyNum.sign_text s ++ PyNum.fixed2 h).
Proof.
  intros Hh Hs Hnear. exists h, (PyNum.decimal (h / 100)).
  split; [exact Hnear|].
  split; [apply numeral_decimal, Z.div_pos; lia|].
  split; [apply decimal_canonical|].
  rewrite fixed2_text by assumption. unfold minus_text. rewrite Hs.
  now destruct s.
Qed.

(** [format(x, '.2f')] of a finite double is that double to two
    decimal places. *)
Lemma format_2f_places (x : PyNum.float) :
  finite x = true -> two_places x (PyNum.format_2f x).
Proof.
  destruct x as [s|s| |s m e]; try discriminate; intros _.
  - apply fixed2_places; [lia|reflexivity|].
    split; [discriminate|reflexivity].
  - cbn [PyNum.format_2f].
    pose proof (nearest_ratio m e 100 ltac:(lia)) as Hnear.
    destruct (ratio_value m e) as (Hn & Hd & _).
    destruct (PyNum.ratio m e) as [num den]. cbn [fst snd] in *.
    apply fixed2_places; [apply nearest_even_nonneg; lia|reflexivity|].
    eapply nearest_wd; [|exact Hnear]. rewrite abs_value. reflexivity.
Qed.

Lemma nearest_bounds (v : Q) (n : Z) :
  nearest v n ->
  (inject_Z n - (1 # 2) <= v /\ v <= inject_Z n + (1 # 2))%Q.
Proof.
  intros [H _]. apply Qabs_Qle_condition in H. destruct H as [H1 H2].
  split; lra.
Qed.

Lemma nearest_mono (v w : Q) (n m : Z) :
  (v <= w)%Q -> nearest v n -> nearest w m -> (n <= m)%Z.
Proof.
  intros Hvw Hn Hm.
  destruct (Z_le_gt_dec n m) as [Hle|Hgt]; [assumption|exfalso].
  destruct (nearest_bounds _ _ Hn) as [Hn1 _].
  destruct (nearest_bounds _ _ Hm) as [_ Hm2].
  assert (Hq : (inject_Z (m + 1) <= inject_Z n)%Q) by (rewrite <- Zle_Qle; lia).
  rewrite inject_Z_plus in Hq. change (inject_Z 1) with 1%Q in Hq.
  assert (En : n = (m + 1)%Z).
  { assert (H : (inject_Z n <= inject_Z (m + 1))%Q)
      by (rewrite inject_Z_plus; change (inject_Z 1) with 1%Q; lra).
    rewrite <- Zle_Qle in H. lia. }
  assert (Ev : (v - inject_Z n == - (1 # 2))%Q) by lra.
  assert (Ew : (w - inject_Z m == 1 # 2)%Q) by lra.
  destruct Hn as [_ Tn], Hm as [_ Tm].
  assert (Hen : Z.even n = true) by (apply Tn; rewrite Ev; reflexivity).
  assert (Hem : Z.even m = true) by (apply Tm; rewrite Ew; reflexivity).
  rewrite En, Z.even_add, Hem in Hen. discriminate.
Qed.

Lemma nearest_unique (v : Q) (n m : Z) : nearest v n -> nearest v m -> n = m.
Proof.
  intros Hn Hm.
  pose proof (nearest_mono v v n m (Qle_refl v) Hn Hm).
  pose proof (nearest_mono v v m n (Qle_refl v) Hm Hn).
  lia.
Qed.

(** To two decimal places a number has one text only. *)
Lemma two_places_unique (x : PyNum.float) (t1 t2 : string) :
  two_places x t1 -> two_places x t2 -> t1 = t2.
Proof.
  intros (h1 & i1 & N1 & M1 & C1 & ->) (h2 & i2 & N2 & M2 & C2 & ->).
  assert (h2 = h1) by (eapply nearest_unique; eauto). subst h2.
  now rewrite (canonical_numeral_unique i1 i2 _ M1 C1 M2 C2).
Qed.

(** ** Points *)

Lemma coords_places (p : Point3D.t) :
  finite_point p -> coords_text p (Point3D.coords p).
Proof.
  intros (Hx & Hy & Hz).
  exists (PyNum.format_2f (Point3D.x p)), (PyNum.format_2f (Point3D.y p)),
         (PyNum.format_2f (Point3D.z p)).
  split; [reflexivity|]. auto using format_2f_places.
Qed.

Lemma coords_text_unique (p : Point3D.t) (t1 t2 : string) :
  coords_text p t1 -> coords_text p t2 -> t1 = t2.
Proof.
  intros (x1 & y1 & z1 & -> & X1 & Y1 & Z1) (x2 & y2 & z2 & -> & X2 & Y2 & Z2).
  now rewrite (two_places_unique _ _ _ X1 X2), (two_places_unique _ _ _ Y1 Y2),
    (two_places_unique _ _ _ Z1 Z2).
Qed.

Lemma hex_digits_numeral (a : N) :
  hex_numeral (HexadecimalString.NilZero.string_of_uint (N.to_hex_uint a)) a.
Proof.
  exists (N.to_hex_uint a). split.
  - apply HexadecimalString.NilZero.usu. destruct a as [|q].
    + discriminate.
    + apply HexadecimalPos.Unsigned.to_uint_nonnil.
  - apply HexadecimalN.Unsigned.of_to.
Qed.

Lemma hex_digits_canonical (a : N) :
  canonical (HexadecimalString.NilZero.string_of_uint (N.to_hex_uint a)).
Proof.
  assert (Hn : Hexadecimal.unorm (N.to_hex_uint a) = N.to_hex_uint a).
  { rewrite <- (HexadecimalN.Unsigned.of_to a) at 2.
    now rewrite HexadecimalN.Unsigned.to_of. }
  revert Hn. generalize (N.to_hex_uint a). intros u.
  destruct u; try (intros _; right; eexists _, _;
                   split; [reflexivity|discriminate]).
  - discriminate.
  - rewrite HexadecimalFacts.unorm_D0. unfold Hexadecimal.unorm.
    pose proof (HexadecimalFacts.nzhead_nonzero u) as Hnz.
    destruct (Hexadecimal.nzhead u) eqn:E; intros H;
      try discriminate H; try (now destruct (Hnz u0)).
    injection H as <-. now left.
Qed.

Lemma hex_numeral_unique (tok : string) (a b : N) :
  hex_numeral tok a -> hex_numeral tok b -> a = b.
Proof. intros (u & Hu & <-) (v & Hv & <-). congruence. Qed.

Lemma repr_debug_text (a : N) (o : Point3D.t) :
  finite_point o ->
  debug_text a o (Point3D.__repr__ a o)
             (HexadecimalString.NilZero.string_of_uint (N.to_hex_uint a)).
Proof.
  intros Ho. exists (Point3D.coords o). split; [reflexivity|].
  split; [now apply coords_places|].
  split; [apply hex_digits_numeral | apply hex_digits_canonical].
Qed.

Lemma app_inv_head_str (s t u : string) : s ++ t = s ++ u -> t = u.
Proof.
  induction s as [|c s IH]; [auto|]. rewrite !app_cons. intros [= H]. auto.
Qed.

Lemma app_inv_last_char (s t : string) (c : ascii) :
  s ++ String c "" = t ++ String c "" -> s = t.
Proof.
  revert t. induction s as [|d s IH]; intros [|e t]; rewrite ?app_cons, ?app_empty_l.
  - reflexivity.
  - intros [= -> H]. now destruct t.
  - intros [= -> H]. now destruct s.
  - intros [= -> H]. f_equal. now apply IH.
Qed.

Lemma hex_inj (a b : N) : PyNum.hex a = PyNum.hex b -> a = b.
Proof.
  unfold PyNum.hex. intros H%app_inv_head_str.
  apply (hex_numeral_unique
           (HexadecimalString.NilZero.string_of_uint (N.to_hex_uint a))).
  - apply hex_digits_numeral.
  - rewrite H. apply hex_digits_numeral.
Qed.

Lemma repr_inj (a b : N) (o1 o2 : Point3D.t) :
  Point3D.klass o1 = Point3D.klass o2 -> same_coords o1 o2 ->
  Point3D.__repr__ a o1 = Point3D.__repr__ b o2 -> a = b.
Proof.
  intros Hk (Hx & Hy & Hz). unfold Point3D.__repr__, Point3D.coords.
  rewrite Hk, Hx, Hy, Hz. intros H.
  repeat apply app_inv_head_str in H.
  now apply app_inv_last_char, hex_inj in H.
Qed.

(** ** The built-ins on a few inputs *)

Example round_ties :
  PyNum.round (S754_finite false 5 (-1)) = PyNum.Return 2%Z
  /\ PyNum.round (S754_finite false 7 (-1)) = PyNum.Return 4%Z
  /\ PyNum.round (S754_finite true 1 (-1)) = PyNum.Return 0%Z
  /\ PyNum.round (S754_finite true 3 (-1)) = PyNum.Return (-2)%Z.
Proof. repeat split. Qed.

Example format_2f_ties :
  PyNum.format_2f (S754_finite false 1 (-3)) = "0.12"
  /\ PyNum.format_2f (S754_finite false 3 (-3)) = "0.38"
  /\ PyNum.format_2f (S754_finite true 1 (-10)) = "-0.00"
  /\ PyNum.format_2f (S754_zero true) = "-0.00"
  /\ PyNum.format_2f d1_4 = "1.40"
  /\ PyNum.format_2f (S754_infinity true) = "-inf".
Proof. repeat split. Qed.

Example hex_of_numbers : PyNum.hex 0 = "0x0" /\ PyNum.hex 255 = "0xff".
Proof. split; reflexivity. Qed.

Example replace_longer_pattern : Py.replace "ab" "X" "aababcab" = "aXXcX".
Proof. reflexivity. Qed.

Example strip_both_ends :
  Py.strip (String "009" " a b " ++ String "010" "") = "a b".
Proof. reflexivity. Qed.

(** Outside the invariant of the data model [round] has no integer to
    give, and [to_dict] raises what [round] raises. *)
Example to_dict_not_a_number :
  Point3D.to_dict (Point3D.mk "Point3D" d1_4 S754_nan d3_5) None
  = PyNum.Raise PyNum.ValueError
  /\ Point3D.to_dict (Point3D.mk "Point3D" d1_4 d2_6 (S754_infinity false))
       (Some false)
     = PyNum.Raise PyNum.OverflowError.
Proof. split; reflexivity. Qed.

Lemma free_to_snail_lowered (s : string) :
  free_to_snail s = map_chars underscore_for_space (Py.lower (Py.strip s)).
Proof. unfold free_to_snail. now rewrite replace_space. Qed.




(** A history in two parts. *)
Lemma run_app (es1 es2 : list event) : forall h : Point3D.heap,
  run h (es1 ++ es2) =
  match run h es1 with
  | Some h1 => run h1 es2
  | None => None
  end.
Proof.
  induction es1 as [|e es1 IH]; intros h; [reflexivity|].
  cbn [app run]. destruct (step h e); [apply IH|reflexivity].
Qed.

(** An object stays where it is until it is removed. *)
Lemma run_keeps (a : N) (es : list event) : forall h h' : Point3D.heap,
  run h es = Some h' ->
  is_Some (h !! a) ->
  ~ In (Del a) es ->
  is_Some (h' !! a).
Proof.
  induction es as [|e es IH]; intros h h' Hrun Ha Hdel.
  - cbn in Hrun. now injection Hrun as <-.
  - cbn [run] in Hrun. destruct (step h e) as [h1|] eqn:Hstep; [|discriminate].
    apply (IH h1 h' Hrun); [|intros Hin; apply Hdel; now right].
    destruct e as [b o|b]; cbn [step] in Hstep.
    + destruct (h !! b) eqn:Hb; [discriminate|]. injection Hstep as <-.
      destruct (decide (b = a)) as [->|Hne].
      * destruct Ha as [o' Ha]. congruence.
      * unfold Point3D.heap in *. now rewrite lookup_insert_ne.
    + destruct (h !! b) eqn:Hb; [|discriminate]. injection Hstep as <-.
      unfold Point3D.heap in *. rewrite lookup_delete_ne; [assumption|].
      intros ->. apply Hdel. now left.
Qed.

(** The address of an object made while another one is alive is not
    the address of that one. *)
Lemma alive_together_apart (pre mid post : list event) (a1 a2 : N)
    (o1 o2 : Point3D.t) (h : Point3D.heap) :
  run ∅ (pre ++ New a1 o1 :: mid ++ New a2 o2 :: post) = Some h ->
  ~ In (Del a1) mid ->
  a1 <> a2.
Proof.
  intros Hrun Hdel E. subst a2.
  rewrite run_app in Hrun. destruct (run ∅ pre) as [h0|]; [|discriminate].
  cbn [run] in Hrun.
  destruct (step h0 (New a1 o1)) as [h1|] eqn:S1; [|discriminate].
  assert (H1 : is_Some (h1 !! a1)).
  { cbn [step] in S1. destruct (h0 !! a1); [discriminate|].
    injection S1 as <-. unfold Point3D.heap. rewrite lookup_insert_eq. eauto. }
  rewrite run_app in Hrun. destruct (run h1 mid) as [h2|] eqn:Hmid; [|discriminate].
  pose proof (run_keeps a1 mid h1 h2 Hmid H1 Hdel) as [o Ho].
  cbn [run step] in Hrun. rewrite Ho in Hrun. discriminate.
Qed.

Lemma sub_length_runs (s : string) :
  String.length (Re.sub s) = String.length s + length (runs s).
Proof.
  rewrite sub_insert_underscores. unfold insert_underscores, runs.
  rewrite length_pieces by apply seq_below. now rewrite length_seq.
Qed.

Lemma underscores_runs (s : string) :
  occurrences "_" (camel_to_snail s) = occurrences "_" s + length (runs s).
Proof.
  unfold camel_to_snail. rewrite sub_insert_underscores.
  unfold insert_underscores, runs.
  rewrite occurrences_lower, occurrences_pieces.
  pose proof (occurrences_indices s "") as H.
  rewrite app_empty_l in H. cbn [String.length] in H. now rewrite H.
Qed.

(** * The claims *)

(** C1, as the specification has it, fails: read by the letter, with
    the maximal runs of capitals of the whole string, of which the one
    at the start gets no underscore, [ABc] would stay [abc] and
    [HTTPServer] would become [httpserver]; the code makes [a_bc] and
    [h_ttpserver] of them. *)
Lemma camel_to_snail_not_maximal_runs :
  camel_to_snail_as_stated "ABc" = "abc"
  /\ camel_to_snail "ABc" = "a_bc"
  /\ camel_to_snail_as_stated "HTTPServer" = "httpserver"
  /\ camel_to_snail "HTTPServer" = "h_ttpserver"
  /\ ~ (forall s : string, camel_to_snail s = camel_to_snail_as_stated s).
Proof.
  do 4 (split; [reflexivity|]). intros H. specialize (H "ABc"). discriminate H.
Qed.

(** C1, amended: [camel_to_snail] puts an underscore in front of each
    maximal run of one or more capitals among the characters behind
    the first one, so that a capital directly behind the first
    character begins a run also where the first character is a
    capital (see [run_begins]), and then turns everything into lower
    case; [CamelCase] becomes [camel_case], the empty string stays
    empty and [lower] stays [lower]. *)
Theorem camel_to_snail_runs :
  (forall s : string, camel_to_snail s = camel_to_snail_spec s)
  /\ camel_to_snail "CamelCase" = "camel_case"
  /\ camel_to_snail "" = ""
  /\ camel_to_snail "lower" = "lower".
Proof.
  split; [|repeat split].
  intros s. unfold camel_to_snail, camel_to_snail_spec.
  now rewrite sub_insert_underscores.
Qed.

(** C2, as the specification has it, fails: [HTTPServer] does not
    become [_h_t_t_p_server]. *)
Lemma camel_to_snail_http_not_per_letter :
  camel_to_snail "HTTPServer" <> "_h_t_t_p_server".
Proof. discriminate. Qed.

(** C2, amended: behind the first character [c], which gets no
    underscore, the capitals [g] that follow are matched as one run:
    the substitution puts one underscore in front of them and goes on
    behind them, and the whole is then lowered; so [HTTPServer]
    becomes [h_ttpserver]. *)
Theorem camel_to_snail_leading_capitals (c : ascii) (g rest : string) :
  g <> "" ->
  Re.capitals g = g ->
  Re.capitals rest = "" ->
  camel_to_snail (String c (g ++ rest)) =
  Py.lower (String c ("_" ++ g ++ Re.sub rest))
  /\ camel_to_snail "HTTPServer" = "h_ttpserver".
Proof.
  intros Hne Hg Hr. split; [|reflexivity].
  unfold camel_to_snail. rewrite sub_cons. f_equal. f_equal.
  destruct g as [|d g']; [contradiction|].
  pose proof Hg as Hg'. rewrite capitals_cons in Hg'.
  destruct (Re.in_A_Z d) eqn:E; [|discriminate]. injection Hg' as Hg'.
  rewrite app_cons, sub_from_scan, E, in_run_app by assumption.
  now rewrite sub_from_no_capital by assumption.
Qed.

Lemma camel_to_snail_leading_capitals_witness :
  "TTPS" <> "" /\ Re.capitals "TTPS" = "TTPS" /\ Re.capitals "erver" = ""
  /\ camel_to_snail (String "H" ("TTPS" ++ "erver")) =
     Py.lower (String "H" ("_" ++ "TTPS" ++ Re.sub "erver"))
  /\ camel_to_snail "HTTPServer" = "h_ttpserver".
Proof.
  split; [discriminate|]. split; [reflexivity|]. split; [reflexivity|].
  apply (camel_to_snail_leading_capitals "H" "TTPS" "erver");
    [discriminate | reflexivity | reflexivity].
Defined.

(** C9: [camel_to_snail] puts no underscore in front of the first
    character: the result of a non-empty string begins with the lower
    case of its first character.  The substitution inserts one
    underscore for each run of capitals behind the first character and
    nothing else, and the result has that many underscores more than
    the input; a capital directly behind the first character begins a
    run whatever the first character is, so [HTTPServer], with its one
    run at index 1, becomes [h_ttpserver]. *)
Theorem camel_to_snail_first_char_and_count :
  (forall (c : ascii) (t : string),
     first_char (camel_to_snail (String c t)) = Some (Py.lower_char c))
  /\ (forall s : string,
        String.length (Re.sub s) = String.length s + length (runs s)
        /\ occurrences "_" (camel_to_snail s)
           = occurrences "_" s + length (runs s))
  /\ (forall (c d : ascii) (t : string),
        run_begins (String c (String d t)) 1 = Re.in_A_Z d)
  /\ runs "HTTPServer" = [1]
  /\ camel_to_snail "HTTPServer" = "h_ttpserver".
Proof.
  split; [|split; [|repeat split]].
  - intros c t. unfold camel_to_snail. now rewrite sub_cons.
  - intros s. split; [apply sub_length_runs | apply underscores_runs].
Qed.

(** C5: [free_to_snail] cuts the white space at both ends, turns what
    is left, [m], into lower case and then each space of it into an
    underscore; [  Hello World  ] becomes [hello_world] and the empty
    string stays empty. *)
Theorem free_to_snail_trims_lowers_replaces :
  (forall s : string, exists l m r : string,
     s = l ++ m ++ r
     /\ all_space l = true /\ all_space r = true /\ trimmed m
     /\ free_to_snail s = map_chars underscore_for_space (Py.lower m))
  /\ free_to_snail "  Hello World  " = "hello_world"
  /\ free_to_snail "" = "".
Proof.
  split; [|split; reflexivity].
  intros s. destruct (strip_split s) as (l & r & E & Hl & Hr).
  exists l, (Py.strip s), r.
  auto using strip_trimmed, free_to_snail_lowered.
Qed.

(** C8: for a string that is in snail case already and has no white
    space around it, a second [free_to_snail] changes nothing; such a
    string is in fact left as it is by the first one. *)
Theorem free_to_snail_idempotent (s : string) :
  snail_case s = true ->
  trimmed s ->
  free_to_snail (free_to_snail s) = free_to_snail s
  /\ free_to_snail s = s.
Proof.
  intros Hs Ht. split; [apply free_to_snail_again|].
  rewrite free_to_snail_chars, (strip_id s Ht). now apply snail_case_fixed.
Qed.

Lemma free_to_snail_idempotent_witness :
  snail_case "hello_world" = true /\ trimmed "hello_world"
  /\ free_to_snail (free_to_snail "hello_world") = free_to_snail "hello_world"
  /\ free_to_snail "hello_world" = "hello_world".
Proof.
  assert (Ht : trimmed "hello_world")
    by (split; intros c [= <-]; reflexivity).
  split; [reflexivity|]. split; [exact Ht|].
  exact (free_to_snail_idempotent "hello_world" eq_refl Ht).
Defined.


(** C3: for a point of finite coordinates [to_dict] returns a mapping;
    with [two_d] true (what the parameter defaults to) its keys are
    [x] and [y] and no other, with [two_d] false [x], [y] and [z], and
    each key holds the integer nearest to its coordinate. *)
Theorem to_dict_rounds (p : Point3D.t) (two_d : option bool) :
  finite_point p ->
  exists m : gmap string Z,
    Point3D.to_dict p two_d = PyNum.Return m
    /\ dom m = (if default true two_d then {["x"; "y"]}
               else {["x"; "y"; "z"]} : gset string)
    /\ (exists n, m !! "x" = Some n /\ nearest (value (Point3D.x p)) n)
    /\ (exists n, m !! "y" = Some n /\ nearest (value (Point3D.y p)) n)
    /\ (two_d = Some false ->
        exists n, m !! "z" = Some n /\ nearest (value (Point3D.z p)) n).
Proof.
  intros (Hx & Hy & Hz).
  destruct (round_finite _ Hx) as (nx & Ex & Nx).
  destruct (round_finite _ Hy) as (ny & Ey & Ny).
  destruct (round_finite _ Hz) as (nz & Ez & Nz).
  assert (Htwo : forall m : gmap string Z,
            m = <["x" := nx]> (<["y" := ny]> ∅) ->
            dom m = ({["x"; "y"]} : gset string)
            /\ (exists n, m !! "x" = Some n /\ nearest (value (Point3D.x p)) n)
            /\ (exists n, m !! "y" = Some n /\ nearest (value (Point3D.y p)) n)).
  { intros m ->. split; [rewrite !dom_insert_L, dom_empty_L; set_solver|].
    split; [exists nx; split; [apply lookup_insert_eq|exact Nx]|].
    exists ny. split; [|exact Ny].
    rewrite lookup_insert_ne by discriminate. apply lookup_insert_eq. }
  unfold Point3D.to_dict. destruct two_d as [[|]|]; cbn [default];
    rewrite ?Ex, ?Ey, ?Ez; cbn [mbind PyNum.result_bind];
    eexists; (split; [reflexivity|]).
  - destruct (Htwo _ eq_refl) as (? & ? & ?). repeat split; try assumption.
    discriminate.
  - split; [rewrite !dom_insert_L, dom_empty_L; set_solver|].
    split; [exists nx; split; [apply lookup_insert_eq|exact Nx]|].
    split.
    + exists ny. split; [|exact Ny].
      rewrite lookup_insert_ne by discriminate. apply lookup_insert_eq.
    + intros _. exists nz. split; [|exact Nz].
      rewrite !lookup_insert_ne by discriminate. apply lookup_insert_eq.
  - destruct (Htwo _ eq_refl) as (? & ? & ?). repeat split; try assumption.
    discriminate.
Qed.

Lemma sample_finite : finite_point sample.
Proof. repeat split. Qed.

Lemma to_dict_rounds_witness :
  finite_point sample /\
  exists m : gmap string Z,
    Point3D.to_dict sample (Some false) = PyNum.Return m
    /\ dom m = ({["x"; "y"; "z"]} : gset string)
    /\ (exists n, m !! "x" = Some n /\ nearest (value (Point3D.x sample)) n)
    /\ (exists n, m !! "y" = Some n /\ nearest (value (Point3D.y sample)) n)
    /\ (Some false = Some false ->
        exists n, m !! "z" = Some n /\ nearest (value (Point3D.z sample)) n).
Proof.
  split; [exact sample_finite|].
  exact (to_dict_rounds sample (Some false) sample_finite).
Defined.

(** C4: [1.4], [2.6] and [3.5] denote the binary64 numbers [d1_4],
    [d2_6] and [d3_5], the last one exactly half-way between 3 and 4;
    on the point made of them [to_dict(two_d=True)], and [to_dict()]
    as well, returns [{"x": 1, "y": 3}] and [to_dict(two_d=False)]
    returns these entries and ["z": 4], the tie going to the even
    integer. *)
Theorem to_dict_sample :
  Point3D.to_dict sample (Some true)
  = PyNum.Return ({["x" := 1%Z; "y" := 3%Z]} : gmap string Z)
  /\ Point3D.to_dict sample None
     = PyNum.Return ({["x" := 1%Z; "y" := 3%Z]} : gmap string Z)
  /\ Point3D.to_dict sample (Some false)
     = PyNum.Return (<["z" := 4%Z]> {["x" := 1%Z; "y" := 3%Z]} : gmap string Z)
  /\ binary64 d1_4 = true /\ binary64 d2_6 = true /\ binary64 d3_5 = true
  /\ (Qabs (value d1_4 - (14 # 10)) < 1 # 9007199254740992)%Q
  /\ (Qabs (value d2_6 - (26 # 10)) < 1 # 4503599627370496)%Q
  /\ (value d3_5 == 7 # 2)%Q
  /\ Z.even 4 = true /\ Z.even 3 = false.
Proof.
  do 3 (split; [vm_compute; reflexivity|]).
  repeat split.
Qed.

(** C6: the display string of a point of finite coordinates is
    [(x, y, z)] with each coordinate to two decimal places, and no
    other text is; it has no class name and no identifier in it, being
    the same for all objects of the same coordinates; for the point
    (1, 2, 3) it is [(1.00, 2.00, 3.00)], and for (-1.5, -0.0, 3) it
    is [(-1.50, -0.00, 3.00)]. *)
Theorem str_two_places (p : Point3D.t) :
  finite_point p ->
  coords_text p (Point3D.__str__ p)
  /\ (forall txt : string, coords_text p txt -> txt = Point3D.__str__ p)
  /\ (forall q : Point3D.t,
        same_coords p q -> Point3D.__str__ q = Point3D.__str__ p)
  /\ (value d1 == 1 /\ value d2 == 2 /\ value d3 == 3)%Q
  /\ Point3D.__str__ p123 = "(1.00, 2.00, 3.00)"
  /\ (value dm1_5 == - (3 # 2))%Q
  /\ Point3D.__str__ p_signed = "(-1.50, -0.00, 3.00)".
Proof.
  intros Hp. split; [now apply coords_places|].
  split; [intros txt H; apply (coords_text_unique p _ _ H), coords_places, Hp|].
  split; [|split; [repeat split|repeat split]].
  intros q (Hx & Hy & Hz). unfold Point3D.__str__, Point3D.coords.
  now rewrite Hx, Hy, Hz.
Qed.

Lemma p123_finite : finite_point p123.
Proof. repeat split. Qed.

Lemma str_two_places_witness :
  finite_point p123
  /\ coords_text p123 (Point3D.__str__ p123)
  /\ (forall txt : string, coords_text p123 txt -> txt = Point3D.__str__ p123)
  /\ (forall q : Point3D.t,
        same_coords p123 q -> Point3D.__str__ q = Point3D.__str__ p123)
  /\ (value d1 == 1 /\ value d2 == 2 /\ value d3 == 3)%Q
  /\ Point3D.__str__ p123 = "(1.00, 2.00, 3.00)"
  /\ (value dm1_5 == - (3 # 2))%Q
  /\ Point3D.__str__ p_signed = "(-1.50, -0.00, 3.00)".
Proof.
  split; [exact p123_finite|].
  exact (str_two_places p123 p123_finite).
Defined.

(** C7, as the specification has it, fails: two calls of the
    constructor with the same coordinates, the first object gone
    before the second is made, may put the second where the first was,
    and the two separate instances then have the same identifier
    and the same debug representation. *)
Lemma separate_instances_same_text :
  run ∅ one_after_another = Some (<[1%N := sample]> ∅)
  /\ ~ separate_instances_differ.
Proof.
  assert (Hrun : run ∅ one_after_another = Some (<[1%N := sample]> ∅))
    by (vm_compute; reflexivity).
  split; [exact Hrun|]. intros H.
  assert (Hsame : same_coords sample sample) by (repeat split).
  exact (H one_after_another _ 0 2 1%N 1%N sample sample Hrun eq_refl eq_refl
           ltac:(discriminate) Hsame eq_refl).
Qed.

(** C7, amended: the debug representation of an object of finite
    coordinates has in it the name of its class, the coordinates each
    to two decimal places, and behind [0x] a token that is the address
    of the object in hexadecimal.  Of two instances of the same
    coordinates that are alive at the same time, the second made
    before the first is removed, the addresses differ and so do the
    tokens, and with the same class the representations. *)
Theorem repr_debug_text_distinct (pre mid post : list event) (a1 a2 : N)
    (o1 o2 : Point3D.t) (h : Point3D.heap) :
  run ∅ (pre ++ New a1 o1 :: mid ++ New a2 o2 :: post) = Some h ->
  ~ In (Del a1) mid ->
  finite_point o1 ->
  same_coords o1 o2 ->
  exists tok1 tok2 : string,
    debug_text a1 o1 (Point3D.__repr__ a1 o1) tok1
    /\ debug_text a2 o2 (Point3D.__repr__ a2 o2) tok2
    /\ a1 <> a2
    /\ tok1 <> tok2
    /\ (Point3D.klass o1 = Point3D.klass o2 ->
        Point3D.__repr__ a1 o1 <> Point3D.__repr__ a2 o2).
Proof.
  intros Hrun Hdel Hfin Hsame.
  pose proof (alive_together_apart pre mid post a1 a2 o1 o2 h Hrun Hdel) as Hne.
  assert (Hfin2 : finite_point o2).
  { destruct Hsame as (Hx & Hy & Hz), Hfin as (? & ? & ?).
    unfold finite_point. now rewrite <- Hx, <- Hy, <- Hz. }
  exists (HexadecimalString.NilZero.string_of_uint (N.to_hex_uint a1)),
         (HexadecimalString.NilZero.string_of_uint (N.to_hex_uint a2)).
  split; [now apply repr_debug_text|]. split; [now apply repr_debug_text|].
  split; [exact Hne|]. split.
  - intros E. apply Hne.
    apply (hex_numeral_unique
             (HexadecimalString.NilZero.string_of_uint (N.to_hex_uint a1)));
      [apply hex_digits_numeral | rewrite E; apply hex_digits_numeral].
  - intros Hk E. apply Hne. exact (repr_inj a1 a2 o1 o2 Hk Hsame E).
Qed.

Lemma repr_debug_text_distinct_witness :
  run ∅ ([] ++ New 1 sample :: [] ++ New 2 sample :: [])
  = Some (<[2%N := sample]> (<[1%N := sample]> ∅))
  /\ ~ In (Del 1) []
  /\ finite_point sample
  /\ same_coords sample sample
  /\ exists tok1 tok2 : string,
       debug_text 1 sample (Point3D.__repr__ 1 sample) tok1
       /\ debug_text 2 sample (Point3D.__repr__ 2 sample) tok2
       /\ 1%N <> 2%N
       /\ tok1 <> tok2
       /\ (Point3D.klass sample = Point3D.klass sample ->
           Point3D.__repr__ 1 sample <> Point3D.__repr__ 2 sample).
Proof.
  assert (Hrun : run ∅ ([] ++ New 1 sample :: [] ++ New 2 sample :: [])
                 = Some (<[2%N := sample]> (<[1%N := sample]> ∅)))
    by (vm_compute; reflexivity).
  assert (Hdel : ~ In (Del 1) []) by (intros []).
  assert (Hsame : same_coords sample sample) by (repeat split).
  split; [exact Hrun|]. split; [exact Hdel|].
  split; [exact sample_finite|]. split; [exact Hsame|].
  exact (repr_debug_text_distinct [] [] [] 1 2 sample sample _
           Hrun Hdel sample_finite Hsame).
Defined.

(** * Further properties of the converters *)

Lemma lower_char_no_capital (c : ascii) : Re.in_A_Z (Py.lower_char c) = false.
Proof. ascii_cases c; reflexivity. Qed.

Lemma lower_char_twice (c : ascii) :
  Py.lower_char (Py.lower_char c) = Py.lower_char c.
Proof. ascii_cases c; reflexivity. Qed.

Lemma snail_char_no_capital (c : ascii) : Re.in_A_Z (snail_char c) = false.
Proof. ascii_cases c; reflexivity. Qed.

Lemma snail_char_lowered (c : ascii) :
  Py.lower_char (snail_char c) = snail_char c.
Proof. ascii_cases c; reflexivity. Qed.

Lemma snail_char_counts (c : ascii) :
  ((if Ascii.eqb "_" (snail_char c) then 1 else 0) =
   (if Ascii.eqb " " c then 1 else 0) + (if Ascii.eqb "_" c then 1 else 0))
  /\ Ascii.eqb " " (snail_char c) = false.
Proof. ascii_cases c; split; reflexivity. Qed.

Lemma has_capital_lower (s : string) : has_capital (Py.lower s) = false.
Proof.
  induction s as [|c s IH]; [reflexivity|].
  cbn [Py.lower has_capital]. now rewrite lower_char_no_capital, IH.
Qed.

Lemma lower_twice (s : string) : Py.lower (Py.lower s) = Py.lower s.
Proof.
  induction s as [|c s IH]; [reflexivity|].
  cbn [Py.lower]. now rewrite lower_char_twice, IH.
Qed.

Lemma has_capital_map_snail (m : string) :
  has_capital (map_chars snail_char m) = false.
Proof.
  induction m as [|c m IH]; [reflexivity|].
  cbn [map_chars has_capital]. now rewrite snail_char_no_capital, IH.
Qed.

Lemma lower_map_snail (m : string) :
  Py.lower (map_chars snail_char m) = map_chars snail_char m.
Proof.
  induction m as [|c m IH]; [reflexivity|].
  cbn [map_chars Py.lower]. now rewrite snail_char_lowered, IH.
Qed.

(** Where there is no capital the scan copies. *)
Lemma sub_from_no_match (t : string) (p : nat) :
  has_capital t = false -> Re.sub_from (S p) 0 t = t.
Proof.
  revert p. induction t as [|c t IH]; intros p; [reflexivity|].
  cbn [has_capital]. intros [Hc Ht]%orb_false_elim.
  now rewrite sub_from_scan, Hc, IH.
Qed.

Lemma sub_no_match (s : string) : has_capital s = false -> Re.sub s = s.
Proof.
  destruct s as [|c t]; [reflexivity|]. cbn [has_capital].
  intros [_ Ht]%orb_false_elim. now rewrite sub_cons, sub_from_no_match.
Qed.

(** The two states of the scan, by length: nothing is dropped, and
    two underscores are never next to each other's runs. *)
Lemma scan_lengths (t : string) : forall p : nat,
  (String.length t <= String.length (Re.sub_from (S p) 0 t)
   /\ String.length (Re.sub_from (S p) 0 t)
      <= String.length t + (String.length t + 1) / 2)
  /\ (String.length t <= String.length (in_run (S p) t)
      /\ String.length (in_run (S p) t)
         <= String.length t + String.length t / 2).
Proof.
  induction t as [|c t IH]; intros p.
  - vm_compute. repeat split; apply Nat.le_refl.
  - rewrite sub_from_scan, in_run_step.
    destruct (IH (S p)) as [[A1 A2] [B1 B2]].
    destruct (Re.in_A_Z c); rewrite ?app_cons, ?app_empty_l;
      cbn [String.length];
      repeat split;
      try (apply Nat.Div0.div_le_mono with (c := 2); lia); try lia.
    all: pose proof (Nat.div_mod_eq (String.length t) 2);
         pose proof (Nat.div_mod_eq (String.length t + 1) 2);
         pose proof (Nat.div_mod_eq (S (String.length t)) 2);
         pose proof (Nat.div_mod_eq (S (String.length t) + 1) 2);
         pose proof (Nat.mod_upper_bound (String.length t) 2);
         pose proof (Nat.mod_upper_bound (String.length t + 1) 2);
         pose proof (Nat.mod_upper_bound (S (String.length t)) 2);
         pose proof (Nat.mod_upper_bound (S (String.length t) + 1) 2);
         lia.
Qed.

Lemma scan_grows (t : string) : forall p : nat,
  has_capital t = true ->
  String.length t < String.length (Re.sub_from (S p) 0 t).
Proof.
  induction t as [|c t IH]; intros p; [discriminate|].
  cbn [has_capital]. rewrite sub_from_scan.
  destruct (Re.in_A_Z c); cbn [orb]; intros H.
  - rewrite app_cons, app_empty_l. cbn [String.length].
    destruct (scan_lengths t (S p)) as [_ [B _]]. lia.
  - cbn [String.length]. specialize (IH (S p) H). lia.
Qed.

Lemma all_space_app (s t : string) :
  all_space (s ++ t) = all_space s && all_space t.
Proof.
  induction s as [|c s IH]; [reflexivity|].
  rewrite app_cons. cbn [all_space]. now rewrite IH, andb_assoc.
Qed.

Lemma lstrip_all_space (s : string) : all_space s = true -> Py.lstrip s = "".
Proof.
  induction s as [|c s IH]; [reflexivity|]. cbn [all_space Py.lstrip].
  intros [Hc Hs]%andb_prop. rewrite Hc. auto.
Qed.

Lemma rstrip_all_space (s : string) : all_space s = true -> Py.rstrip s = "".
Proof.
  induction s as [|c s IH]; [reflexivity|]. cbn [all_space].
  intros [Hc Hs]%andb_prop. now rewrite rstrip_cons, IH, Hc.
Qed.

Lemma lstrip_app_space (l s : string) :
  all_space l = true -> Py.lstrip (l ++ s) = Py.lstrip s.
Proof.
  induction l as [|c l IH]; [reflexivity|]. cbn [all_space].
  intros [Hc Hl]%andb_prop. rewrite app_cons. cbn [Py.lstrip].
  rewrite Hc. auto.
Qed.

Lemma rstrip_app_space (s r : string) :
  all_space r = true -> Py.rstrip (s ++ r) = Py.rstrip s.
Proof.
  intros Hr. induction s as [|c s IH].
  - rewrite app_empty_l. now apply rstrip_all_space.
  - now rewrite app_cons, !rstrip_cons, IH.
Qed.

Lemma strip_app_space (s r : string) :
  all_space r = true -> Py.strip (s ++ r) = Py.strip s.
Proof.
  intros Hr. unfold Py.strip. induction s as [|c s IH].
  - rewrite app_empty_l. now rewrite (lstrip_all_space r Hr).
  - rewrite app_cons. cbn [Py.lstrip]. destruct (Py.isspace c); [exact IH|].
    rewrite <- app_cons. now apply rstrip_app_space.
Qed.

Lemma strip_all_space (s : string) : all_space s = true -> Py.strip s = "".
Proof. intros H. unfold Py.strip. now rewrite lstrip_all_space. Qed.

Lemma map_chars_empty (f : ascii -> ascii) (s : string) :
  map_chars f s = "" -> s = "".
Proof. now destruct s. Qed.

Lemma occurrences_map_snail (m : string) :
  occurrences "_" (map_chars snail_char m)
  = occurrences " " m + occurrences "_" m
  /\ occurrences " " (map_chars snail_char m) = 0.
Proof.
  induction m as [|c m [IH1 IH2]]; [split; reflexivity|].
  cbn [map_chars occurrences].
  destruct (snail_char_counts c) as [E1 E2]. rewrite E1, E2, IH1, IH2.
  split; lia.
Qed.

(** X1: a second [camel_to_snail] changes nothing, whatever the
    string: the first one leaves no capital for the pattern to
    match. *)
Theorem camel_to_snail_twice (s : string) :
  camel_to_snail (camel_to_snail s) = camel_to_snail s.
Proof.
  unfold camel_to_snail.
  rewrite (sub_no_match (Py.lower (Re.sub s))) by apply has_capital_lower.
  apply lower_twice.
Qed.

(** X2: [camel_to_snail] is plain [lower] exactly on the strings that
    have no capital behind their first character. *)
Theorem camel_to_snail_lower_iff (c : ascii) (t : string) :
  camel_to_snail (String c t) = Py.lower (String c t)
  <-> has_capital t = false.
Proof.
  unfold camel_to_snail. rewrite sub_cons. split.
  - intros E. destruct (has_capital t) eqn:H; [exfalso|reflexivity].
    apply (f_equal String.length) in E. rewrite !length_lower in E.
    cbn [String.length] in E. pose proof (scan_grows t 0 H). lia.
  - intros H. now rewrite sub_from_no_match.
Qed.

(** X3: [camel_to_snail] takes no underscore away and adds at most
    one for every two characters of the input. *)
Theorem camel_to_snail_underscores (s : string) :
  occurrences "_" s <= occurrences "_" (camel_to_snail s)
  /\ occurrences "_" (camel_to_snail s)
     <= occurrences "_" s + String.length s / 2.
Proof.
  rewrite underscores_runs. split; [lia|].
  apply Nat.add_le_mono_l.
  pose proof (sub_length_runs s) as Hlen.
  destruct s as [|c t]; [cbn in *; lia|].
  rewrite sub_cons in Hlen. cbn [String.length] in *.
  destruct (scan_lengths t 0) as [[_ A2] _].
  rewrite Nat.add_1_r in A2. lia.
Qed.

(** X4: [camel_to_snail] after [free_to_snail] adds nothing: what
    [free_to_snail] returns is left as it is. *)
Theorem camel_to_snail_after_free (s : string) :
  camel_to_snail (free_to_snail s) = free_to_snail s.
Proof.
  rewrite free_to_snail_chars. unfold camel_to_snail.
  rewrite sub_no_match by apply has_capital_map_snail.
  apply lower_map_snail.
Qed.

(** X5: neither converter returns a capital of [[A-Z]], and
    [free_to_snail] returns no space. *)
Theorem converters_leave_no_capital (s : string) :
  has_capital (camel_to_snail s) = false
  /\ has_capital (free_to_snail s) = false
  /\ occurrences " " (free_to_snail s) = 0.
Proof.
  split; [apply has_capital_lower|]. rewrite free_to_snail_chars.
  split; [apply has_capital_map_snail | apply occurrences_map_snail].
Qed.

(** X6: [free_to_snail] returns the empty string exactly on the
    strings that are white space throughout. *)
Theorem free_to_snail_empty_iff (s : string) :
  free_to_snail s = "" <-> all_space s = true.
Proof.
  rewrite free_to_snail_chars. split.
  - intros E%map_chars_empty.
    destruct (strip_split s) as (l & r & Es & Hl & Hr).
    rewrite E, app_empty_l in Es. rewrite Es, all_space_app, Hl, Hr.
    reflexivity.
  - intros H. now rewrite strip_all_space.
Qed.

(** X7: white space put around a string does not change what
    [free_to_snail] makes of it. *)
Theorem free_to_snail_padding (l s r : string) :
  all_space l = true ->
  all_space r = true ->
  free_to_snail (l ++ s ++ r) = free_to_snail s.
Proof.
  intros Hl Hr. rewrite !free_to_snail_chars. f_equal.
  unfold Py.strip. rewrite lstrip_app_space by assumption.
  now apply strip_app_space.
Qed.

Lemma free_to_snail_padding_witness :
  all_space (String "009" " ") = true
  /\ all_space (String "010" "") = true
  /\ free_to_snail (String "009" " " ++ "Free Text" ++ String "010" "")
     = free_to_snail "Free Text".
Proof.
  split; [reflexivity|]. split; [reflexivity|].
  apply (free_to_snail_padding (String "009" " ") "Free Text" (String "010" ""));
    reflexivity.
Defined.

(** X8: the underscores [free_to_snail] returns are the spaces and
    the underscores of what [strip] leaves, one for one: spaces in a
    row are not merged. *)
Theorem free_to_snail_counts (s : string) :
  occurrences "_" (free_to_snail s)
  = occurrences " " (Py.strip s) + occurrences "_" (Py.strip s).
Proof. rewrite free_to_snail_chars. apply occurrences_map_snail. Qed.

(** * Further properties of the point formatter *)

Lemma round_finite_returns (x : PyNum.float) :
  finite x = true ->
  round_error x = None /\ exists n, PyNum.round x = PyNum.Return n.
Proof.
  intros H. split; [now destruct x|].
  destruct (round_finite x H) as (n & E & _). now exists n.
Qed.

Lemma round_not_finite_raises (x : PyNum.float) :
  finite x = false ->
  exists e, round_error x = Some e /\ PyNum.round x = PyNum.Raise e.
Proof. destruct x; try discriminate; intros _; eexists; split; reflexivity. Qed.

(** What [round] does, by the kind of its argument. *)
Ltac round_cases x :=
  let H := fresh "F" in
  let n := fresh "n" in
  let e := fresh "e" in
  let E1 := fresh "E" in
  let E2 := fresh "R" in
  destruct (finite x) eqn:H;
  [ destruct (round_finite_returns x H) as (E1 & n & E2)
  | destruct (round_not_finite_raises x H) as (e & E1 & E2) ].

Lemma nearest_integer (k n : Z) : nearest (inject_Z k) n -> n = k.
Proof.
  intros [H _].
  assert (E : (Qabs (inject_Z k - inject_Z n) == inject_Z (Z.abs (k - n)))%Q).
  { unfold Qminus, Qplus, Qopp, inject_Z, Qabs, Qeq. cbn [Qnum Qden].
    f_equal. f_equal. lia. }
  rewrite E in H. unfold Qle, inject_Z in H. cbn [Qnum Qden] in H. lia.
Qed.

(** What a call of [to_dict] that returns has done. *)
Lemma to_dict_returns (p : Point3D.t) (two_d : option bool) (m : gmap string Z) :
  Point3D.to_dict p two_d = PyNum.Return m ->
  exists nx ny,
    PyNum.round (Point3D.x p) = PyNum.Return nx
    /\ PyNum.round (Point3D.y p) = PyNum.Return ny
    /\ ((default true two_d = true /\ m = <["x" := nx]> (<["y" := ny]> ∅))
        \/ (default true two_d = false /\ exists nz,
              PyNum.round (Point3D.z p) = PyNum.Return nz
              /\ m = <["x" := nx]> (<["y" := ny]> (<["z" := nz]> ∅)))).
Proof.
  unfold Point3D.to_dict.
  destruct (PyNum.round (Point3D.x p)) as [nx|ex] eqn:Ex;
    [|destruct (default true two_d); discriminate].
  destruct (PyNum.round (Point3D.y p)) as [ny|ey] eqn:Ey;
    [|destruct (default true two_d); discriminate].
  destruct (default true two_d).
  - cbn [mbind PyNum.result_bind]. intros [= <-]. exists nx, ny. auto.
  - destruct (PyNum.round (Point3D.z p)) as [nz|ez] eqn:Ez; [|discriminate].
    cbn [mbind PyNum.result_bind]. intros [= <-]. exists nx, ny.
    split; [reflexivity|]. split; [reflexivity|]. right. eauto.
Qed.

Lemma round_returns_finite (x : PyNum.float) (n : Z) :
  PyNum.round x = PyNum.Return n -> finite x = true.
Proof. destruct x; try discriminate; reflexivity. Qed.

(** Each entry of the mapping is [round] of the coordinate its key
    names. *)
Lemma to_dict_lookup (p : Point3D.t) (two_d : option bool)
    (m : gmap string Z) (k : string) (n : Z) :
  Point3D.to_dict p two_d = PyNum.Return m ->
  m !! k = Some n ->
  exists f, coord p k = Some f /\ PyNum.round f = PyNum.Return n.
Proof.
  intros H Hk. unfold coord.
  destruct (to_dict_returns p two_d m H)
    as (nx & ny & Ex & Ey & [[_ ->] | [_ (nz & Ez & ->)]]);
    destruct (String.eqb_spec k "x") as [->|Nx];
    try (rewrite lookup_insert_eq in Hk; injection Hk as <-; eauto; fail);
    rewrite lookup_insert_ne in Hk by congruence;
    destruct (String.eqb_spec k "y") as [->|Ny];
    try (rewrite lookup_insert_eq in Hk; injection Hk as <-; eauto; fail);
    rewrite lookup_insert_ne in Hk by congruence;
    try (rewrite lookup_empty in Hk; discriminate).
  destruct (String.eqb_spec k "z") as [->|Nz].
  - rewrite lookup_insert_eq in Hk. injection Hk as <-. eauto.
  - rewrite lookup_insert_ne, lookup_empty in Hk by congruence. discriminate.
Qed.

Lemma round_nearest (x : PyNum.float) (n : Z) :
  PyNum.round x = PyNum.Return n -> nearest (value x) n.
Proof.
  intros H. destruct (round_finite x (round_returns_finite x n H)) as (k & E & N).
  congruence.
Qed.

Lemma decimal_first (n : Z) (rest : string) :
  exists c r, PyNum.decimal n ++ rest = String c r /\ c <> "-"%char.
Proof.
  unfold PyNum.decimal, DecimalString.NilZero.string_of_uint.
  destruct (N.to_uint (Z.to_N n));
    cbn [DecimalString.NilEmpty.string_of_uint]; rewrite app_cons;
    eexists _, _; (split; [reflexivity|discriminate]).
Qed.

Lemma format_2f_first (x : PyNum.float) (rest : string) :
  exists c r, PyNum.format_2f x ++ rest = String c r
              /\ (c = "-"%char <-> sign_bit x = Some true).
Proof.
  assert (Hfix : forall (s : bool) (h : Z),
            exists c r, (PyNum.sign_text s ++ PyNum.fixed2 h) ++ rest = String c r
                        /\ (c = "-"%char <-> Some s = Some true)).
  { intros [|] h.
    - eexists _, _. split; [reflexivity|]. split; reflexivity.
    - unfold PyNum.fixed2. cbn [PyNum.sign_text]. rewrite app_empty_l.
      rewrite app_assoc_str.
      destruct (decimal_first (h / 100) (("." ++ PyNum.two_digits (h mod 100)) ++ rest))
        as (c & r & E & Hc).
      exists c, r. split; [exact E|]. split; [contradiction|discriminate]. }
  destruct x as [s|s| |s m e]; cbn [PyNum.format_2f sign_bit].
  - apply Hfix.
  - destruct s; eexists _, _; (split; [reflexivity|]); split;
      try reflexivity; discriminate.
  - eexists _, _. split; [reflexivity|]. split; discriminate.
  - destruct (PyNum.ratio m e) as [num den]. apply Hfix.
Qed.

(** X9: [to_dict] returns a mapping exactly when the coordinates it
    reads are finite: [x] and [y], and [z] only where [two_d] is
    false; with [two_d] true a [z] that is no number does no harm. *)
Theorem to_dict_returns_iff (p : Point3D.t) (two_d : option bool) :
  (exists m, Point3D.to_dict p two_d = PyNum.Return m)
  <-> finite (Point3D.x p) = true /\ finite (Point3D.y p) = true
      /\ (default true two_d = false -> finite (Point3D.z p) = true).
Proof.
  split.
  - intros [m H].
    destruct (to_dict_returns p two_d m H)
      as (nx & ny & Ex & Ey & [[Hd _] | [_ (nz & Ez & _)]]);
      repeat split; eauto using round_returns_finite.
    rewrite Hd. discriminate.
  - intros (Hx & Hy & Hz). unfold Point3D.to_dict.
    destruct (round_finite _ Hx) as (nx & -> & _).
    destruct (round_finite _ Hy) as (ny & -> & _).
    destruct (default true two_d); [eexists; reflexivity|].
    destruct (round_finite _ (Hz eq_refl)) as (nz & -> & _).
    eexists; reflexivity.
Qed.

(** X10: what [to_dict] raises is what [round] raises on the first
    coordinate, in the order x, y, z, that is no finite number:
    [ValueError] for a NaN, [OverflowError] for an infinity; [z]
    counts only where [two_d] is false. *)
Theorem to_dict_raises_iff (p : Point3D.t) (two_d : option bool) (e : PyNum.exn) :
  Point3D.to_dict p two_d = PyNum.Raise e
  <-> round_error (Point3D.x p) = Some e
      \/ (finite (Point3D.x p) = true /\ round_error (Point3D.y p) = Some e)
      \/ (finite (Point3D.x p) = true /\ finite (Point3D.y p) = true
          /\ default true two_d = false
          /\ round_error (Point3D.z p) = Some e).
Proof.
  unfold Point3D.to_dict.
  round_cases (Point3D.x p); round_cases (Point3D.y p);
    round_cases (Point3D.z p); destruct (default true two_d);
    repeat match goal with H : PyNum.round _ = _ |- _ => rewrite H; clear H end;
    cbn [mbind PyNum.result_bind];
    repeat match goal with H : round_error _ = _ |- _ => rewrite H; clear H end;
    split;
    try (intros [= <-]; auto 6; fail);
    try discriminate;
    intros [H|[(? & H)|(? & ? & ? & H)]];
    try discriminate; try (injection H as <-; reflexivity).
Qed.

(** X11: where [to_dict(two_d=False)] returns a mapping,
    [to_dict()] and [to_dict(two_d=True)] return that mapping
    without its key [z]. *)
Theorem to_dict_two_d_drops_z (p : Point3D.t) (m : gmap string Z) :
  Point3D.to_dict p (Some false) = PyNum.Return m ->
  Point3D.to_dict p None = PyNum.Return (delete "z" m)
  /\ Point3D.to_dict p (Some true) = PyNum.Return (delete "z" m).
Proof.
  intros H.
  destruct (to_dict_returns p (Some false) m H)
    as (nx & ny & Ex & Ey & [[Hd _] | [_ (nz & Ez & ->)]]); [discriminate|].
  assert (E : delete "z" (<["x" := nx]> (<["y" := ny]> (<["z" := nz]> ∅)))
              = (<["x" := nx]> (<["y" := ny]> ∅) : gmap string Z)).
  { rewrite !(delete_insert_ne _ "z") by discriminate.
    now rewrite delete_insert_eq, delete_empty. }
  rewrite E. unfold Point3D.to_dict. cbn [default]. rewrite Ex, Ey.
  split; reflexivity.
Qed.

Lemma to_dict_two_d_drops_z_witness :
  Point3D.to_dict sample (Some false)
  = PyNum.Return (<["x" := 1%Z]> (<["y" := 3%Z]> (<["z" := 4%Z]> ∅)))
  /\ Point3D.to_dict sample None
     = PyNum.Return (delete "z" (<["x" := 1%Z]> (<["y" := 3%Z]> (<["z" := 4%Z]> ∅))))
  /\ Point3D.to_dict sample (Some true)
     = PyNum.Return (delete "z" (<["x" := 1%Z]> (<["y" := 3%Z]> (<["z" := 4%Z]> ∅)))).
Proof.
  split; [reflexivity|].
  apply (to_dict_two_d_drops_z sample). reflexivity.
Defined.

(** X12: a coordinate that is a whole number comes out of [to_dict]
    as that number: rounding changes nothing there. *)
Theorem to_dict_integer_exact (p : Point3D.t) (two_d : option bool)
    (m : gmap string Z) (k : string) (f : PyNum.float) (j n : Z) :
  Point3D.to_dict p two_d = PyNum.Return m ->
  coord p k = Some f ->
  (value f == inject_Z j)%Q ->
  m !! k = Some n ->
  n = j.
Proof.
  intros H Hf Hv Hk.
  destruct (to_dict_lookup p two_d m k n H Hk) as (f' & Hf' & Hr).
  assert (f' = f) by congruence. subst f'.
  apply nearest_integer. apply (nearest_wd (value f)); [exact Hv|].
  now apply round_nearest.
Qed.

Lemma to_dict_integer_exact_witness :
  Point3D.to_dict p123 None = PyNum.Return (<["x" := 1%Z]> (<["y" := 2%Z]> ∅))
  /\ coord p123 "y" = Some d2
  /\ (value d2 == inject_Z 2)%Q
  /\ (<["x" := 1%Z]> (<["y" := 2%Z]> ∅) : gmap string Z) !! "y" = Some 2%Z
  /\ 2%Z = 2%Z.
Proof.
  split; [reflexivity|]. split; [reflexivity|]. split; [reflexivity|].
  split; [reflexivity|].
  apply (to_dict_integer_exact p123 None (<["x" := 1%Z]> (<["y" := 2%Z]> ∅))
           "y" d2 2 2); reflexivity.
Defined.

(** X13: [to_dict] keeps the order of coordinates: of two points, the
    one with the smaller coordinate under a key never gets the larger
    integer under that key. *)
Theorem to_dict_monotone (p q : Point3D.t) (dp dq : option bool)
    (mp mq : gmap string Z) (k : string) (fp fq : PyNum.float) (a b : Z) :
  Point3D.to_dict p dp = PyNum.Return mp ->
  Point3D.to_dict q dq = PyNum.Return mq ->
  coord p k = Some fp ->
  coord q k = Some fq ->
  (value fp <= value fq)%Q ->
  mp !! k = Some a ->
  mq !! k = Some b ->
  (a <= b)%Z.
Proof.
  intros Hp Hq Hfp Hfq Hle Ha Hb.
  destruct (to_dict_lookup p dp mp k a Hp Ha) as (f1 & E1 & R1).
  destruct (to_dict_lookup q dq mq k b Hq Hb) as (f2 & E2 & R2).
  assert (f1 = fp) by congruence. assert (f2 = fq) by congruence. subst.
  eapply nearest_mono; eauto using round_nearest.
Qed.

Lemma to_dict_monotone_witness :
  Point3D.to_dict p123 None = PyNum.Return (<["x" := 1%Z]> (<["y" := 2%Z]> ∅))
  /\ Point3D.to_dict sample (Some false)
     = PyNum.Return (<["x" := 1%Z]> (<["y" := 3%Z]> (<["z" := 4%Z]> ∅)))
  /\ coord p123 "y" = Some d2
  /\ coord sample "y" = Some d2_6
  /\ (value d2 <= value d2_6)%Q
  /\ (<["x" := 1%Z]> (<["y" := 2%Z]> ∅) : gmap string Z) !! "y" = Some 2%Z
  /\ (<["x" := 1%Z]> (<["y" := 3%Z]> (<["z" := 4%Z]> ∅)) : gmap string Z) !! "y"
     = Some 3%Z
  /\ (2 <= 3)%Z.
Proof.
  assert (Hle : (value d2 <= value d2_6)%Q) by (unfold Qle; vm_compute; discriminate).
  do 4 (split; [reflexivity|]). split; [exact Hle|].
  do 2 (split; [reflexivity|]).
  exact (to_dict_monotone p123 sample None (Some false)
           (<["x" := 1%Z]> (<["y" := 2%Z]> ∅))
           (<["x" := 1%Z]> (<["y" := 3%Z]> (<["z" := 4%Z]> ∅)))
           "y" d2 d2_6 2 3 eq_refl eq_refl eq_refl eq_refl Hle eq_refl eq_refl).
Defined.

(** X14: the display string shows a minus sign in front of [x]
    exactly when [x] is a number or an infinity, not a NaN, and its
    sign bit is set, also where the digits that follow are all
    zero. *)
Theorem str_minus_sign (p : Point3D.t) :
  String.get 1 (Point3D.__str__ p) = Some "-"%char
  <-> sign_bit (Point3D.x p) = Some true.
Proof.
  unfold Point3D.__str__, Point3D.coords.
  destruct (format_2f_first (Point3D.x p)
              (", " ++ PyNum.format_2f (Point3D.y p) ++ ", "
                    ++ PyNum.format_2f (Point3D.z p) ++ ")"))
    as (c & r & E & Hc).
  rewrite app_cons, app_empty_l, E. cbn [String.get].
  rewrite <- Hc. split; [now intros [= ->]|now intros ->].
Qed.
